(** * IndianBlockchain: a shallow embedding of [blockchain.py]

    The development follows the layout of the Python module:
    - the pieces of the Python runtime the module relies on (string
      slicing and repetition, [json.dumps(..., sort_keys=True)],
      [str.encode], [hashlib.sha256(...).hexdigest()], [time.time()]);
    - the classes [Transaction], [Block] and [IndianBlockchain];
    - the properties of hashing, mining, sealing and validation. *)

From Stdlib Require Import ZArith Ascii List Lia Bool DecimalString DecimalZ.
From Stdlib Require String.
From Stdlib Require Import Floats.SpecFloat.
From stdpp Require Import base tactics option list sets sorting strings.
Import ListNotations.

Local Open Scope Z_scope.

(** ** SHA-256 (FIPS 180-4) over bytes, words as [Z] masked to 32 bits *)

Module SHA256.

Definition word (x : Z) : Z := Z.land x 4294967295.
Definition add32 (x y : Z) : Z := word (x + y).
Definition rotr (n x : Z) : Z :=
  Z.lor (Z.shiftr x n) (word (Z.shiftl x (32 - n))).
Definition shr (n x : Z) : Z := Z.shiftr x n.
Definition not32 (x : Z) : Z := Z.lxor x 4294967295.

Definition Ch (x y z : Z) : Z := Z.lxor (Z.land x y) (Z.land (not32 x) z).
Definition Maj (x y z : Z) : Z :=
  Z.lxor (Z.lxor (Z.land x y) (Z.land x z)) (Z.land y z).
Definition bsig0 (x : Z) : Z := Z.lxor (Z.lxor (rotr 2 x) (rotr 13 x)) (rotr 22 x).
Definition bsig1 (x : Z) : Z := Z.lxor (Z.lxor (rotr 6 x) (rotr 11 x)) (rotr 25 x).
Definition ssig0 (x : Z) : Z := Z.lxor (Z.lxor (rotr 7 x) (rotr 18 x)) (shr 3 x).
Definition ssig1 (x : Z) : Z := Z.lxor (Z.lxor (rotr 17 x) (rotr 19 x)) (shr 10 x).

(** The round constants are the first 32 bits of the fractional parts of
    the cube roots of the first 64 primes, the initial state those of the
    square roots of the first 8 primes.  They are computed rather than
    tabulated. *)

Definition is_prime (p : Z) : bool :=
  (1 <? p) && forallb (fun d => negb (p mod d =? 0))
                      (map Z.of_nat (seq 2 (Z.to_nat p - 2))).

Definition primes64 : list Z :=
  Eval vm_compute in filter is_prime (map Z.of_nat (seq 2 310)).

(** Integer cube root, one bit at a time from bit [k-1] downwards. *)
Fixpoint icbrt_bits (k : nat) (n r : Z) : Z :=
  match k with
  | O => r
  | S k' =>
      let c := r + 2 ^ Z.of_nat k' in
      icbrt_bits k' n (if c * c * c <=? n then c else r)
  end.

Definition frac_cbrt32 (p : Z) : Z := word (icbrt_bits 36 (p * 2 ^ 96) 0).
Definition frac_sqrt32 (p : Z) : Z := word (Z.sqrt (p * 2 ^ 64)).

Definition K : list Z := Eval vm_compute in map frac_cbrt32 primes64.
Definition H0 : list Z := Eval vm_compute in map frac_sqrt32 (firstn 8 primes64).

(** Big-endian conversions. *)
Fixpoint be_bytes (n : nat) (x : Z) : list Z :=
  match n with
  | O => []
  | S n' => Z.land (Z.shiftr x (8 * Z.of_nat n')) 255 :: be_bytes n' x
  end.

Definition be_word (b3 b2 b1 b0 : Z) : Z :=
  Z.lor (Z.shiftl b3 24) (Z.lor (Z.shiftl b2 16) (Z.lor (Z.shiftl b1 8) b0)).

Fixpoint words_of_bytes (n : nat) (bs : list Z) : list Z :=
  match n with
  | O => []
  | S n' =>
      match bs with
      | b3 :: b2 :: b1 :: b0 :: rest => be_word b3 b2 b1 b0 :: words_of_bytes n' rest
      | _ => []
      end
  end.

(** Padding (section 5.1.1): a 1 bit, zeros up to 56 mod 64 bytes, then
    the bit length on 8 bytes. *)
Definition padding (len : Z) : list Z :=
  128 :: repeat 0 (Z.to_nat ((55 - len) mod 64)) ++ be_bytes 8 (8 * len).

Definition pad (msg : list Z) : list Z :=
  msg ++ padding (Z.of_nat (length msg)).

(** Message schedule (section 6.2.2, step 1).  The schedule is kept
    newest word first while it is extended. *)
Fixpoint extend (n : nat) (rev_w : list Z) : list Z :=
  match n with
  | O => rev_w
  | S n' =>
      let wt := add32 (add32 (add32 (ssig1 (nth 1 rev_w 0)) (nth 6 rev_w 0))
                             (ssig0 (nth 14 rev_w 0)))
                      (nth 15 rev_w 0) in
      extend n' (wt :: rev_w)
  end.

Definition schedule (block : list Z) : list Z :=
  rev (extend 48 (rev (words_of_bytes 16 block))).

(** The eight working variables. *)
Record regs := Regs { ra : Z; rb : Z; rc : Z; rd : Z; re : Z; rf : Z; rg : Z; rh : Z }.

Definition round (s : regs) (kw : Z * Z) : regs :=
  let t1 := add32 (add32 (add32 (add32 (rh s) (bsig1 (re s)))
                                (Ch (re s) (rf s) (rg s))) (fst kw)) (snd kw) in
  let t2 := add32 (bsig0 (ra s)) (Maj (ra s) (rb s) (rc s)) in
  Regs (add32 t1 t2) (ra s) (rb s) (rc s) (add32 (rd s) t1) (re s) (rf s) (rg s).

Definition regs_add (s t : regs) : regs :=
  Regs (add32 (ra s) (ra t)) (add32 (rb s) (rb t)) (add32 (rc s) (rc t))
       (add32 (rd s) (rd t)) (add32 (re s) (re t)) (add32 (rf s) (rf t))
       (add32 (rg s) (rg t)) (add32 (rh s) (rh t)).

Definition compress (s : regs) (block : list Z) : regs :=
  regs_add s (fold_left round (combine K (schedule block)) s).

Fixpoint blocks (n : nat) (s : regs) (bs : list Z) : regs :=
  match n with
  | O => s
  | S n' => blocks n' (compress s (firstn 64 bs)) (skipn 64 bs)
  end.

Definition init : regs :=
  Regs (nth 0 H0 0) (nth 1 H0 0) (nth 2 H0 0) (nth 3 H0 0)
       (nth 4 H0 0) (nth 5 H0 0) (nth 6 H0 0) (nth 7 H0 0).

Definition digest_words (msg : list Z) : list Z :=
  let p := pad msg in
  let s := blocks (length p / 64) init p in
  [ra s; rb s; rc s; rd s; re s; rf s; rg s; rh s].

(** Lowercase hexadecimal rendering, as [hexdigest] prints it. *)
Definition hex_digit (d : Z) : ascii :=
  if d <? 10 then ascii_of_nat (Z.to_nat (48 + d))
  else ascii_of_nat (Z.to_nat (87 + d)).

Fixpoint hex_fixed (n : nat) (x : Z) : string :=
  match n with
  | O => EmptyString
  | S n' => String (hex_digit (Z.land (Z.shiftr x (4 * Z.of_nat n')) 15)) (hex_fixed n' x)
  end.

Definition hexdigest (msg : list Z) : string :=
  fold_right (fun wd acc => hex_fixed 8 wd +:+ acc) EmptyString (digest_words msg).

End SHA256.

(** ** The Python runtime used by the module *)

Module Py.

(** A Python [str] is modelled by a [string] whose characters are the code
    points 0..255; [int] is [Z]; [float] is an IEEE-754 binary64 value
    given as a [spec_float].  What lies outside: strings with code points
    from 256 on, and the sign and payload of a NaN, of which [spec_float]
    has one. *)

Definition float : Type := spec_float.

(** [math.isfinite] *)
Definition isfinite (x : float) : bool :=
  match x with
  | S754_zero _ | S754_finite _ _ _ => true
  | S754_infinity _ | S754_nan => false
  end.

(** [s * n]: [n] copies of [s], none when [n <= 0].  CPython raises
    [OverflowError] when [n] does not fit an index, that is outside
    [-2^63 <= n < 2^63]; the model is meant for the counts inside. *)
Definition str_mul (s : string) (n : Z) : string :=
  fold_right String.append EmptyString (repeat s (Z.to_nat n)).

(** [s[:stop]]: a negative [stop] counts from the end, and both ends are
    clipped to the string. *)
Definition slice_to (s : string) (stop : Z) : string :=
  let len := Z.of_nat (String.length s) in
  let stop' := if stop <? 0 then Z.max (len + stop) 0 else Z.min stop len in
  String.substring 0 (Z.to_nat stop') s.

(** [str(n)] for an [int].  CPython 3.11 refuses by default to print
    an [int] of more than 4300 digits; the model is meant for the others. *)
Definition int_repr (n : Z) : string := NilZero.string_of_int (Z.to_int n).

(** [", ".join(parts)] and friends. *)
Fixpoint join (sep : string) (parts : list string) : string :=
  match parts with
  | [] => EmptyString
  | [p] => p
  | p :: rest => p +:+ sep +:+ join sep rest
  end.

(** [s.encode()]: UTF-8 of the code points. *)
Definition encode_char (c : ascii) : list Z :=
  let n := Z.of_nat (nat_of_ascii c) in
  if n <? 128 then [n] else [192 + n / 64; 128 + n mod 64].

Fixpoint str_encode (s : string) : list Z :=
  match s with
  | EmptyString => []
  | String c s' => encode_char c ++ str_encode s'
  end.

(** *** [float.__repr__]

    The shortest decimal string that reads back as the same binary64
    value, the nearest to the value among the shortest, printed in
    positional notation when the decimal point falls within
    [-4 < decpt <= 16] and in exponent notation otherwise. *)

(** Order of [n1 * 2^a1 * 10^b1] and [n2 * 2^a2 * 10^b2]. *)
Definition cmp_scaled (n1 a1 b1 n2 a2 b2 : Z) : comparison :=
  let a := Z.min a1 a2 in
  let b := Z.min b1 b2 in
  (n1 * 2 ^ (a1 - a) * 10 ^ (b1 - b) ?= n2 * 2 ^ (a2 - a) * 10 ^ (b2 - b)).

(** The mantissa is brought to 53 bits, or the exponent to the least one. *)
Fixpoint normalize (fuel : nat) (m e : Z) : Z * Z :=
  match fuel with
  | O => (m, e)
  | S fuel' =>
      if (m <? 2 ^ 52) && (-1074 <? e) then normalize fuel' (2 * m) (e - 1)
      else (m, e)
  end.

(** The least [k >= k0] with [m * 2^e < 10^k]. *)
Fixpoint find_decpt (fuel : nat) (m e k : Z) : Z :=
  match fuel with
  | O => k
  | S fuel' =>
      match cmp_scaled m e 0 1 0 k with
      | Lt => k
      | _ => find_decpt fuel' m e (k + 1)
      end
  end.

Definition decpt_of (m e : Z) : Z :=
  find_decpt 5 m e ((Z.log2 m + e) * 30103 / 100000 - 1).

(** The rounding interval of [m * 2^e] reaches half way to the neighbours:
    [2^(e-1)] above, and as much below unless [m * 2^e] is a power of two,
    whose lower neighbour is twice as close.  In units of [2^(e-2)] the
    value is [4 * m], the upper end [4 * m + 2] and the lower end
    [4 * m - lower_gap m e]. *)
Definition lower_gap (m e : Z) : Z :=
  if (m =? 2 ^ 52) && (-1074 <? e) then 1 else 2.

(** [try_digits m e k]: the multiple of [10^k] to print for [m * 2^e], if
    one of the two multiples around the value lies inside the rounding
    interval, whose ends belong to it when [m] is even; the nearer one
    when both do, the even one on a tie. *)
Definition try_digits (m e k : Z) : option Z :=
  let q := e - 2 in
  let dl := (4 * m * (2 ^ Z.max q 0 * 10 ^ Z.max (- k) 0))
            / (2 ^ Z.max (- q) 0 * 10 ^ Z.max k 0) in
  let dh := dl + 1 in
  let low_ok :=
    match cmp_scaled dl 0 k (4 * m - lower_gap m e) q 0 with
    | Gt => true | Eq => Z.even m | Lt => false
    end in
  let high_ok :=
    match cmp_scaled dh 0 k (4 * m + 2) q 0 with
    | Lt => true | Eq => Z.even m | Gt => false
    end in
  if low_ok && high_ok then
    match cmp_scaled (8 * m) q 0 (dl + dh) 0 k with
    | Lt => Some dl
    | Gt => Some dh
    | Eq => if Z.even dl then Some dl else Some dh
    end
  else if low_ok then Some dl
  else if high_ok then Some dh
  else None.

(** The value itself in decimal: [m * 2^e] is [m * 5^(-e) * 10^e] when [e]
    is negative. *)
Definition exact_decimal (m e : Z) : Z * Z :=
  if e <? 0 then (m * 5 ^ (- e), e) else (m * 2 ^ e, 0).

(** [shortest fuel n m e dp]: tries [n], [n+1], ... significant digits,
    that is the multiples of [10^(dp - n)], [10^(dp - n - 1)], ...; 17
    digits always do, and the value itself is printed should they not.
    The result [(d, k)] stands for [d * 10^k]. *)
Fixpoint shortest (fuel : nat) (n m e dp : Z) : Z * Z :=
  match fuel with
  | O => exact_decimal m e
  | S fuel' =>
      match try_digits m e (dp - n) with
      | Some d => (d, dp - n)
      | None => shortest fuel' (n + 1) m e dp
      end
  end.

Fixpoint strip_zeros (fuel : nat) (d k : Z) : Z * Z :=
  match fuel with
  | O => (d, k)
  | S fuel' => if d mod 10 =? 0 then strip_zeros fuel' (d / 10) (k + 1) else (d, k)
  end.

(** The digit string and the position of the decimal point: the value is
    [0.d1d2...dn * 10^decpt]. *)
Definition digits_decpt (m e : Z) : string * Z :=
  let '(m, e) := normalize 64 m e in
  let '(d, k) := shortest 17 1 m e (decpt_of m e) in
  let '(d, k) := strip_zeros 17 d k in
  let ds := int_repr d in
  (ds, k + Z.of_nat (String.length ds)).

Definition exponent_repr (x : Z) : string :=
  let a := int_repr (Z.abs x) in
  (if x <? 0 then "-" else "+") +:+ (if Z.abs x <? 10 then "0" else EmptyString) +:+ a.

Definition format_short (ds : string) (dp : Z) : string :=
  let nd := String.length ds in
  if (dp <=? -4) || (16 <? dp) then
    String.substring 0 1 ds
      +:+ (if (1 <? nd)%nat then "." +:+ String.substring 1 (nd - 1) ds else EmptyString)
      +:+ "e" +:+ exponent_repr (dp - 1)
  else if dp <=? 0 then
    "0." +:+ str_mul "0" (- dp) +:+ ds
  else if Z.of_nat nd <=? dp then
    ds +:+ str_mul "0" (dp - Z.of_nat nd) +:+ ".0"
  else
    String.substring 0 (Z.to_nat dp) ds +:+ "."
      +:+ String.substring (Z.to_nat dp) (nd - Z.to_nat dp) ds.

Definition sign_repr (s : bool) : string := if s then "-" else EmptyString.

Definition float_repr (x : float) : string :=
  match x with
  | S754_zero s => sign_repr s +:+ "0.0"
  | S754_infinity s => sign_repr s +:+ "inf"
  | S754_nan => "nan"
  | S754_finite s m e =>
      let '(ds, dp) := digits_decpt (Z.pos m) e in
      sign_repr s +:+ format_short ds dp
  end.

End Py.

(** ** [json.dumps(obj, sort_keys=True)] *)

Module Json.

#[local] Unset Elimination Schemes.
Inductive value :=
| Int (n : Z)
| Float (x : Py.float)
| Str (s : string)
| List (xs : list value)
| Dict (items : list (string * value)).
#[local] Set Elimination Schemes.

(** [json.encoder.py_encode_basestring_ascii]: the short escapes, and
    [\uXXXX] for everything outside the printable ASCII range.  The code
    points of the model stop at 255, so the pairs of [\uXXXX] that stand
    for a code point from 65536 on do not occur. *)
Definition dquote : ascii := ascii_of_nat 34.

Definition escape_char (c : ascii) : string :=
  let n := Z.of_nat (nat_of_ascii c) in
  if n =? 34 then String "\" (String dquote EmptyString)
  else if n =? 92 then "\\"
  else if n =? 8 then "\b"
  else if n =? 12 then "\f"
  else if n =? 10 then "\n"
  else if n =? 13 then "\r"
  else if n =? 9 then "\t"
  else if (32 <=? n) && (n <=? 126) then String c EmptyString
  else "\u" +:+ SHA256.hex_fixed 4 n.

Fixpoint escape (s : string) : string :=
  match s with
  | EmptyString => EmptyString
  | String c s' => escape_char c +:+ escape s'
  end.

Definition encode_basestring_ascii (s : string) : string :=
  String dquote (escape s +:+ String dquote EmptyString).

End Json.

Module JsonDumps.
Import Json.

(** [json.encoder.floatstr] with [allow_nan=True]. *)
Definition floatstr (x : Py.float) : string :=
  match x with
  | S754_nan => "NaN"
  | S754_infinity false => "Infinity"
  | S754_infinity true => "-Infinity"
  | _ => Py.float_repr x
  end.

(** Items are ordered by key, code point by code point. *)
Definition key_le {V : Type} : relation (string * V) :=
  fun a b => String.le (fst a) (fst b).

Global Instance key_le_dec {V : Type} : RelDecision (@key_le V).
Proof. intros a b. unfold key_le. apply _. Defined.

Definition sort_items {V : Type} (items : list (string * V)) : list (string * V) :=
  merge_sort key_le items.

Definition render_item (kv : string * string) : string :=
  encode_basestring_ascii (fst kv) +:+ ": " +:+ snd kv.

(** [dumps o] is [json.dumps(o, sort_keys=True)], with the default
    separators [", "] and [": "] and [ensure_ascii=True].  The values of
    a dict are rendered before its items are sorted; the order only
    looks at the keys. *)
Fixpoint dumps (o : value) : string :=
  match o with
  | Int n => Py.int_repr n
  | Float x => floatstr x
  | Str s => encode_basestring_ascii s
  | List xs => "[" +:+ Py.join ", " (map dumps xs) +:+ "]"
  | Dict items =>
      "{" +:+ Py.join ", "
                (map render_item
                     (sort_items (map (fun kv => (fst kv, dumps (snd kv))) items)))
          +:+ "}"
  end.

End JsonDumps.

(** ** Effects: the wall clock, standard output, exceptions, divergence *)

(** What the module prints, one constructor per [print] call: the call
    and its arguments, not the characters written.  The text of
    [MiningBlock] starts with a newline, so that call writes an empty line
    before its own. *)
Inductive message :=
| BlockMined (nonce : Z)
| GenesisCreated
| TransactionAdded (sender recipient : string) (amount : Py.float)
| MiningBlock (index : Z)
| BlockAdded (index : Z)
| InvalidHash (i : nat)
| InvalidLinkage (i : nat)
| InvalidProofOfWork (i : nat)
| BlockchainValid.

Inductive exn := IndexError.

(** [clock] lists the values [time.time()] is going to return, [ticks]
    counts the calls made so far, and [stdout] holds the calls of [print]
    made so far, oldest first. *)
Record world := World {
  clock : nat -> Py.float;
  ticks : nat;
  stdout : list message
}.

(** A call returns, raises, or is still running when the fuel given to its
    loops is spent. *)
Inductive outcome (A : Type) :=
| Returns (a : A) (w : world)
| Raises (e : exn) (w : world)
| OutOfFuel.
Arguments Returns {A} a w.
Arguments Raises {A} e w.
Arguments OutOfFuel {A}.

Definition M (A : Type) : Type := world -> outcome A.

Definition ret {A} (a : A) : M A := fun w => Returns a w.

Definition bind {A B} (m : M A) (k : A -> M B) : M B :=
  fun w =>
    match m w with
    | Returns a w' => k a w'
    | Raises e w' => Raises e w'
    | OutOfFuel => OutOfFuel
    end.

Notation "'let*' x ':=' m 'in' k" := (bind m (fun x => k))
  (at level 10, x name, m at level 100, k at level 200).

Definition raise {A} (e : exn) : M A := fun w => Raises e w.

Definition time_time : M Py.float :=
  fun w => Returns (clock w (ticks w)) (World (clock w) (S (ticks w)) (stdout w)).

Definition print (msg : message) : M unit :=
  fun w => Returns tt (World (clock w) (ticks w) (stdout w ++ [msg])).

(** ** class Transaction *)

Module Transaction.

Record t := Make {
  sender : string;
  recipient : string;
  amount : Py.float;
  timestamp : Py.float
}.

Definition init (sender recipient : string) (amount : Py.float) : M t :=
  let* now := time_time in
  ret (Make sender recipient amount now).

Definition to_dict (self : t) : Json.value :=
  Json.Dict [ ("sender", Json.Str (sender self));
              ("recipient", Json.Str (recipient self));
              ("amount", Json.Float (amount self));
              ("timestamp", Json.Float (timestamp self)) ].

End Transaction.

(** ** class Block *)

Module Block.

Record t := Make {
  index : Z;
  timestamp : Py.float;
  transactions : list Transaction.t;
  previous_hash : string;
  nonce : Z;
  hash : string
}.

Definition block_content (self : t) : list (string * Json.value) :=
  [ ("index", Json.Int (index self));
    ("timestamp", Json.Float (timestamp self));
    ("transactions", Json.List (map Transaction.to_dict (transactions self)));
    ("previous_hash", Json.Str (previous_hash self));
    ("nonce", Json.Int (nonce self)) ].

Definition block_string (self : t) : string :=
  JsonDumps.dumps (Json.Dict (block_content self)).

Definition calculate_hash (self : t) : string :=
  SHA256.hexdigest (Py.str_encode (block_string self)).

Definition init (index : Z) (transactions : list Transaction.t)
                (previous_hash : string) : M t :=
  let* now := time_time in
  let self := Make index now transactions previous_hash 0 EmptyString in
  ret (Make index now transactions previous_hash 0 (calculate_hash self)).

Definition set_nonce (self : t) (n : Z) : t :=
  Make (index self) (timestamp self) (transactions self) (previous_hash self) n (hash self).

Definition set_hash (self : t) (h : string) : t :=
  Make (index self) (timestamp self) (transactions self) (previous_hash self) (nonce self) h.

(** The [while] loop of [mine_block]; [fuel] bounds the number of
    iterations. *)
Fixpoint mine_loop (fuel : nat) (self : t) (difficulty : Z) (target : string) : M t :=
  if negb (String.eqb (Py.slice_to (hash self) difficulty) target) then
    match fuel with
    | O => fun _ => OutOfFuel
    | S fuel' =>
        let self := set_nonce self (nonce self + 1) in
        let self := set_hash self (calculate_hash self) in
        mine_loop fuel' self difficulty target
    end
  else ret self.

Definition mine_block (fuel : nat) (self : t) (difficulty : Z) : M t :=
  let target := Py.str_mul "0" difficulty in
  let* self := mine_loop fuel self difficulty target in
  let* _ := print (BlockMined (nonce self)) in
  ret self.

End Block.

(** ** class IndianBlockchain *)

Module IndianBlockchain.

Record t := Make {
  chain : list Block.t;
  difficulty : Z;
  pending_transactions : list Transaction.t
}.

Definition create_genesis_block (fuel : nat) (self : t) : M t :=
  let* genesis_block := Block.init 0 [] (Py.str_mul "0" 64) in
  let* genesis_block := Block.mine_block fuel genesis_block (difficulty self) in
  let self := Make (chain self ++ [genesis_block]) (difficulty self)
                   (pending_transactions self) in
  let* _ := print GenesisCreated in
  ret self.

(** [difficulty] is [None] when the caller leaves the argument out. *)
Definition init (fuel : nat) (difficulty : option Z) : M t :=
  let difficulty := default 4 difficulty in
  let self := Make [] difficulty [] in
  create_genesis_block fuel self.

(** [self.chain[-1]] *)
Definition get_latest_block (self : t) : M Block.t :=
  match last (chain self) with
  | Some b => ret b
  | None => raise IndexError
  end.

Definition add_transaction (self : t) (sender recipient : string)
                           (amount : Py.float) : M t :=
  let* transaction := Transaction.init sender recipient amount in
  let self := Make (chain self) (difficulty self)
                   (pending_transactions self ++ [transaction]) in
  let* _ := print (TransactionAdded sender recipient amount) in
  ret self.

Definition reward : Py.float := S754_finite false 5629499534213120 (-49).

Definition mine_pending_transactions (fuel : nat) (self : t)
                                     (miner_address : string) : M t :=
  let* self := add_transaction self "Network" miner_address reward in
  let* latest := get_latest_block self in
  let* block := Block.init (Z.of_nat (length (chain self)))
                      (pending_transactions self)
                      (Block.hash latest) in
  let* _ := print (MiningBlock (Block.index block)) in
  let* block := Block.mine_block fuel block (difficulty self) in
  let self := Make (chain self ++ [block]) (difficulty self)
                   (pending_transactions self) in
  let self := Make (chain self) (difficulty self) [] in
  let* _ := print (BlockAdded (Block.index block)) in
  ret self.

(** [l[i]] for [0 <= i]. *)
Definition getitem {A} (l : list A) (i : nat) : M A :=
  match l !! i with
  | Some x => ret x
  | None => raise IndexError
  end.

(** The [for] loop of [is_chain_valid] over the indices still to visit. *)
Fixpoint is_chain_valid_loop (self : t) (indices : list nat) : M bool :=
  match indices with
  | [] =>
      let* _ := print BlockchainValid in
      ret true
  | i :: indices' =>
      let* current_block := getitem (chain self) i in
      let* previous_block := getitem (chain self) (i - 1) in
      if negb (String.eqb (Block.hash current_block)
                          (Block.calculate_hash current_block)) then
        let* _ := print (InvalidHash i) in
        ret false
      else if negb (String.eqb (Block.previous_hash current_block)
                               (Block.hash previous_block)) then
        let* _ := print (InvalidLinkage i) in
        ret false
      else if negb (String.eqb (Py.slice_to (Block.hash current_block) (difficulty self))
                               (Py.str_mul "0" (difficulty self))) then
        let* _ := print (InvalidProofOfWork i) in
        ret false
      else is_chain_valid_loop self indices'
  end.

(** [range(1, len(self.chain))] *)
Definition is_chain_valid (self : t) : M bool :=
  is_chain_valid_loop self (seq 1 (length (chain self) - 1)).

End IndianBlockchain.

Arguments Block.calculate_hash : simpl never.
Arguments Block.block_string : simpl never.
Arguments Py.slice_to : simpl never.
Arguments Py.str_mul : simpl never.
Arguments SHA256.hexdigest : simpl never.

(** ** Vocabulary of the properties *)

(** The world after one more line of output. *)
Definition say (msg : message) (w : world) : world :=
  World (clock w) (ticks w) (stdout w ++ [msg]).

(** The world after one more reading of the clock. *)
Definition tick (w : world) : world :=
  World (clock w) (S (ticks w)) (stdout w).

Definition zeros64 : string :=
  "0000000000000000000000000000000000000000000000000000000000000000".

(** The first [d] characters of [h] exist and are all ['0']. *)
Definition leading_zeros (d : Z) (h : string) : Prop :=
  forall k : nat, Z.of_nat k < d -> String.get k h = Some "0"%char.

(** The proof-of-work test as [mine_block] and [is_chain_valid] write it. *)
Definition meets_target (d : Z) (h : string) : bool :=
  String.eqb (Py.slice_to h d) (Py.str_mul "0" d).

(** The three checks of the validator on one block and its predecessor. *)
Definition hash_ok (cur : Block.t) : bool :=
  String.eqb (Block.hash cur) (Block.calculate_hash cur).
Definition link_ok (prev cur : Block.t) : bool :=
  String.eqb (Block.previous_hash cur) (Block.hash prev).
Definition pow_ok (d : Z) (cur : Block.t) : bool :=
  meets_target d (Block.hash cur).

Definition block_ok (d : Z) (prev cur : Block.t) : bool :=
  hash_ok cur && link_ok prev cur && pow_ok d cur.

(** Block [i] of the chain [c] and its predecessor pass the three checks. *)
Definition ok_at (c : list Block.t) (d : Z) (i : nat) : Prop :=
  exists cur prev,
    c !! i = Some cur /\ c !! (i - 1)%nat = Some prev /\ block_ok d prev cur = true.

(** Every block after the first passes the three checks. *)
Definition all_ok (self : IndianBlockchain.t) : Prop :=
  forall i, (1 <= i < length (IndianBlockchain.chain self))%nat ->
    ok_at (IndianBlockchain.chain self) (IndianBlockchain.difficulty self) i.

(** The line printed for a block that fails, by the order of the checks. *)
Definition failure_message (d : Z) (i : nat) (prev cur : Block.t) : message :=
  if negb (hash_ok cur) then InvalidHash i
  else if negb (link_ok prev cur) then InvalidLinkage i
  else InvalidProofOfWork i.

(** One turn of the mining loop: the nonce goes up by one and the hash is
    recomputed. *)
Definition mine_step (b : Block.t) : Block.t :=
  let b := Block.set_nonce b (Block.nonce b + 1) in
  Block.set_hash b (Block.calculate_hash b).

(** The block that [mine_pending_transactions] builds and hands to
    [mine_block], for a chain whose last block is [tip]. *)
Definition candidate (self : IndianBlockchain.t) (miner : string) (w : world)
                     (tip : Block.t) : Block.t :=
  let txs := IndianBlockchain.pending_transactions self
             ++ [Transaction.Make "Network" miner IndianBlockchain.reward
                   (clock w (ticks w))] in
  let index := Z.of_nat (length (IndianBlockchain.chain self)) in
  let now := clock w (S (ticks w)) in
  Block.Make index now txs (Block.hash tip) 0
    (Block.calculate_hash (Block.Make index now txs (Block.hash tip) 0 EmptyString)).

(** [b'] is the block [b] after one of its attributes was assigned a
    different value.  A change inside a transaction of the block is a
    change of its list of transactions. *)
Inductive tampered (b : Block.t) : Block.t -> Prop :=
| tamper_index v :
    v <> Block.index b ->
    tampered b (Block.Make v (Block.timestamp b) (Block.transactions b)
                  (Block.previous_hash b) (Block.nonce b) (Block.hash b))
| tamper_timestamp v :
    v <> Block.timestamp b ->
    tampered b (Block.Make (Block.index b) v (Block.transactions b)
                  (Block.previous_hash b) (Block.nonce b) (Block.hash b))
| tamper_transactions v :
    v <> Block.transactions b ->
    tampered b (Block.Make (Block.index b) (Block.timestamp b) v
                  (Block.previous_hash b) (Block.nonce b) (Block.hash b))
| tamper_previous_hash v :
    v <> Block.previous_hash b ->
    tampered b (Block.Make (Block.index b) (Block.timestamp b) (Block.transactions b)
                  v (Block.nonce b) (Block.hash b))
| tamper_nonce v :
    v <> Block.nonce b ->
    tampered b (Block.Make (Block.index b) (Block.timestamp b) (Block.transactions b)
                  (Block.previous_hash b) v (Block.hash b))
| tamper_hash v :
    v <> Block.hash b ->
    tampered b (Block.Make (Block.index b) (Block.timestamp b) (Block.transactions b)
                  (Block.previous_hash b) (Block.nonce b) v).

(** [tx.amount = a] *)
Definition set_amount (tx : Transaction.t) (a : Py.float) : Transaction.t :=
  Transaction.Make (Transaction.sender tx) (Transaction.recipient tx) a
    (Transaction.timestamp tx).

(** The linkage invariant of a chain. *)
Definition linked (c : list Block.t) : Prop :=
  (exists g, c !! 0%nat = Some g /\ Block.previous_hash g = zeros64) /\
  forall i cur prev,
    c !! S i = Some cur -> c !! i = Some prev ->
    Block.previous_hash cur = Block.hash prev.

(** The chains that construction followed by calls of [add_transaction]
    and [mine_pending_transactions] can produce, whatever the clock says
    and whatever has been printed. *)
Inductive reachable : IndianBlockchain.t -> Prop :=
| reach_init fuel d w self w' :
    IndianBlockchain.init fuel d w = Returns self w' ->
    reachable self
| reach_add self sender recipient amount w self' w' :
    reachable self ->
    IndianBlockchain.add_transaction self sender recipient amount w = Returns self' w' ->
    reachable self'
| reach_mine fuel self miner w self' w' :
    reachable self ->
    IndianBlockchain.mine_pending_transactions fuel self miner w = Returns self' w' ->
    reachable self'.

(** The characters of [hexdigest]. *)
Definition is_hex_lower (c : ascii) : bool :=
  let n := nat_of_ascii c in
  ((48 <=? n)%nat && (n <=? 57)%nat) || ((97 <=? n)%nat && (n <=? 102)%nat).

Fixpoint string_forall (p : ascii -> bool) (s : string) : bool :=
  match s with
  | EmptyString => true
  | String c s' => p c && string_forall p s'
  end.

(** *** Reading the JSON text back *)

Definition is_int_char (c : ascii) : bool :=
  let n := nat_of_ascii c in
  ((48 <=? n)%nat && (n <=? 57)%nat) || (n =? 45)%nat.

Definition hex_value (c : ascii) : option Z :=
  let n := Z.of_nat (nat_of_ascii c) in
  if (48 <=? n) && (n <=? 57) then Some (n - 48)
  else if (97 <=? n) && (n <=? 102) then Some (n - 87)
  else None.

(** The character at the head of an escaped text, and the rest of the
    text; nothing when the text starts with a bare quote. *)
Definition unescape_head (s : string) : option (ascii * string) :=
  match s with
  | EmptyString => None
  | String c r =>
      let n := Z.of_nat (nat_of_ascii c) in
      if n =? 34 then None
      else if n =? 92 then
        match r with
        | EmptyString => None
        | String c2 r2 =>
            let n2 := Z.of_nat (nat_of_ascii c2) in
            if n2 =? 34 then Some (c2, r2)
            else if n2 =? 92 then Some (c2, r2)
            else if n2 =? 98 then Some (ascii_of_nat 8, r2)
            else if n2 =? 102 then Some (ascii_of_nat 12, r2)
            else if n2 =? 110 then Some (ascii_of_nat 10, r2)
            else if n2 =? 114 then Some (ascii_of_nat 13, r2)
            else if n2 =? 116 then Some (ascii_of_nat 9, r2)
            else
              match r2 with
              | String h1 (String h2 (String h3 (String h4 r3))) =>
                  match hex_value h1, hex_value h2, hex_value h3, hex_value h4 with
                  | Some v1, Some v2, Some v3, Some v4 =>
                      Some (ascii_of_nat (Z.to_nat (4096 * v1 + 256 * v2 + 16 * v3 + v4)), r3)
                  | _, _, _, _ => None
                  end
              | _ => None
              end
        end
      else Some (c, r)
  end.

(** The characters of the text of a float: digits, [.], [e], the signs and
    the letters of [NaN] and [Infinity]. *)
Definition is_float_char (c : ascii) : bool :=
  is_int_char c
  || existsb (Ascii.eqb c) (String.list_ascii_of_string ".e+NaInfity").

(** The floats of a transaction and of a block, in the order of the text. *)
Definition floats_of_transaction (tx : Transaction.t) : list Py.float :=
  [Transaction.amount tx; Transaction.timestamp tx].

Definition floats_of_block (b : Block.t) : list Py.float :=
  Block.timestamp b :: flat_map floats_of_transaction (Block.transactions b).

(** No float of [xs] is printed like a different float of [ys]. *)
Definition printed_apart (xs ys : list Py.float) : Prop :=
  forall x y, x ∈ xs -> y ∈ ys -> JsonDumps.floatstr x = JsonDumps.floatstr y -> x = y.

(** A check of [printed_apart] that computes. *)
Global Instance spec_float_eq_dec : EqDecision spec_float.
Proof. solve_decision. Defined.

Definition printed_apartb (xs ys : list Py.float) : bool :=
  forallb (fun x =>
    forallb (fun y =>
      implb (String.eqb (JsonDumps.floatstr x) (JsonDumps.floatstr y))
            (bool_decide (x = y))) ys) xs.

(** Every transaction the chain holds: those of the blocks, oldest block
    first, then the pending pool. *)
Definition ledger (self : IndianBlockchain.t) : list Transaction.t :=
  flat_map Block.transactions (IndianBlockchain.chain self)
  ++ IndianBlockchain.pending_transactions self.

(** A block whose stored hash is the hash of its fields and meets the
    target of difficulty [d]. *)
Definition sealed (d : Z) (b : Block.t) : Prop :=
  Block.hash b = Block.calculate_hash b /\ meets_target d (Block.hash b) = true.

(** A difficulty no SHA-256 digest can meet: more zeros than the digest
    has characters, or a negative count that leaves some of them. *)
Definition unmeetable (d : Z) : Prop := 64 < d \/ -64 < d < 0.

(** Block [i] of a chain the module has built. *)
Definition block_shape (d : Z) (i : nat) (b : Block.t) : Prop :=
  Block.index b = Z.of_nat i /\
  sealed d b /\
  match i with
  | O => Block.transactions b = []
  | S _ => exists txs tx,
      Block.transactions b = txs ++ [tx] /\
      Transaction.sender tx = "Network" /\
      Transaction.amount tx = IndianBlockchain.reward
  end.

(** *** The decimal a float is printed as *)

(** [d * 10^k] lies in the rounding interval of [m * 2^e]. *)
Definition in_interval (m e d k : Z) : Prop :=
  let q := e - 2 in
  let T := 2 ^ Z.max q 0 * 10 ^ Z.max (- k) 0 in
  let U := 2 ^ Z.max (- q) 0 * 10 ^ Z.max k 0 in
  ((4 * m - Py.lower_gap m e) * T < d * U \/
   ((4 * m - Py.lower_gap m e) * T = d * U /\ Z.even m = true)) /\
  (d * U < (4 * m + 2) * T \/
   (d * U = (4 * m + 2) * T /\ Z.even m = true)).

(** The mantissa and the exponent of a binary64 value: 53 bits, or fewer
    at the least exponent. *)
Definition binary64_bounds (m e : Z) : Prop :=
  0 < m < 2 ^ 53 /\ -1074 <= e <= 971 /\ (2 ^ 52 <= m \/ e = -1074).

(** The value of a decimal digit. *)
Definition digit_value (c : ascii) : option Z :=
  let n := Z.of_nat (nat_of_ascii c) in
  if (48 <=? n) && (n <=? 57) then Some (n - 48) else None.

Definition is_digit (c : ascii) : bool :=
  match digit_value c with Some _ => true | None => false end.

(** The number that a run of digits adds to the digits read so far. *)
Fixpoint digits_acc (s : string) (acc : Z) : Z :=
  match s with
  | EmptyString => acc
  | String c r =>
      match digit_value c with
      | Some v => digits_acc r (10 * acc + v)
      | None => acc
      end
  end.

(** The digits of a mantissa with or without a point: the number [D] they
    make without the point, the number [F] of them after the point, and
    the text that follows. *)
Fixpoint read_mantissa (s : string) (pt : bool) (D F : Z) : Z * Z * string :=
  match s with
  | EmptyString => (D, F, s)
  | String c r =>
      match digit_value c with
      | Some v => read_mantissa r pt (10 * D + v) (if pt then F + 1 else F)
      | None => if Ascii.eqb c "." then read_mantissa r true D F else (D, F, s)
      end
  end.

Definition read_exponent (s : string) : Z :=
  match s with
  | String "e" (String sg r) =>
      if Ascii.eqb sg "-" then - digits_acc r 0 else digits_acc r 0
  | _ => 0
  end.

(** The number a text stands for, as the pair [(D, K)] of [D * 10^K]. *)
Definition read_decimal (s : string) : Z * Z :=
  let '(D, F, rest) := read_mantissa s false 0 0 in
  (D, read_exponent rest - F).

Definition read_float (s : string) : bool * (Z * Z) :=
  match s with
  | String "-" r => (true, read_decimal r)
  | _ => (false, read_decimal s)
  end.

(** A binary64 value. *)
Definition is_binary64 (x : Py.float) : Prop := valid_binary 53 1024 x = true.

(** A text that can follow a mantissa. *)
Definition stops (s : string) : Prop :=
  match s with
  | EmptyString => True
  | String c _ => digit_value c = None /\ Ascii.eqb c "." = false
  end.




(** A binary64 value other than NaN. *)
Definition is_number (x : Py.float) : Prop :=
  valid_binary 53 1024 x = true /\ x <> S754_nan.

(** ** Example data

    The clock readings of a run in which few nonces have to be tried. *)

Definition binary64 (m e : Z) : Py.float := binary_normalize 53 1024 m e false.

Definition demo_readings : list Py.float :=
  [ binary64 6800000059 (-2);   (* 1700000014.75 *)
    binary64 1700000032 0;      (* 1700000032.0 *)
    binary64 6800000129 (-2);   (* 1700000032.25 *)
    binary64 3400000065 (-1);   (* 1700000032.5 *)
    binary64 6800000131 (-2);   (* 1700000032.75 *)
    binary64 1700000033 0;      (* 1700000033.0 *)
    binary64 6800000143 (-2) ]. (* 1700000035.75 *)

Definition demo_world : world :=
  World (fun n => nth n demo_readings (binary64 1700000040 0)) 0 [].

(** The genesis block as [Block(0, [], "0" * 64)] builds it at the first
    reading, before it is mined. *)
Definition demo_unmined : Block.t :=
  Block.Make 0 (binary64 6800000059 (-2)) [] zeros64 0
    "aaa1ea9735dfc287a63dd0fb19d188d3dbb4faaad4a1c701d441b0eccd4a555c".


(** The chain of difficulty 2 after construction and two calls of
    [add_transaction], with the world it has reached. *)
Definition demo_program : M IndianBlockchain.t :=
  let* bc := IndianBlockchain.init 10 (Some 2) in
  let* bc := IndianBlockchain.add_transaction bc "A" "B" (binary64 100 0) in
  IndianBlockchain.add_transaction bc "B" "C" (binary64 50 0).

Definition demo_pending :=
  Eval vm_compute in
    match demo_program demo_world with
    | Returns bc w => (bc, w)
    | _ => (IndianBlockchain.Make [] 2 [], demo_world)
    end.

(** The same chain after [mine_pending_transactions("M")]. *)
Definition demo_sealed :=
  Eval vm_compute in
    match IndianBlockchain.mine_pending_transactions 10 (fst demo_pending) "M"
            (snd demo_pending) with
    | Returns bc w => (bc, w)
    | _ => demo_pending
    end.

(** A chain of difficulty 2 just after construction. *)
Definition demo_fresh :=
  Eval vm_compute in
    match IndianBlockchain.init 10 (Some 2) demo_world with
    | Returns bc w => (bc, w)
    | _ => (IndianBlockchain.Make [] 2 [], demo_world)
    end.

(** The chain after a second call of [mine_pending_transactions("M")]:
    three blocks. *)
Definition demo_three :=
  Eval vm_compute in
    match IndianBlockchain.mine_pending_transactions 10 (fst demo_sealed) "M"
            (snd demo_sealed) with
    | Returns bc w => (bc, w)
    | _ => demo_sealed
    end.

(** Block 1 of that chain, and the same block after
    [chain[1].transactions[0].amount = 999.0]. *)
Definition demo_block1 : Block.t :=
  nth 1 (IndianBlockchain.chain (fst demo_three)) demo_unmined.

Definition demo_block1_tampered : Block.t :=
  Block.Make (Block.index demo_block1) (Block.timestamp demo_block1)
    (match Block.transactions demo_block1 with
     | tx :: txs => set_amount tx (binary64 999 0) :: txs
     | [] => []
     end)
    (Block.previous_hash demo_block1) (Block.nonce demo_block1)
    (Block.hash demo_block1).

Definition demo_three_tampered : IndianBlockchain.t :=
  IndianBlockchain.Make
    (<[1%nat := demo_block1_tampered]> (IndianBlockchain.chain (fst demo_three)))
    (IndianBlockchain.difficulty (fst demo_three))
    (IndianBlockchain.pending_transactions (fst demo_three)).

(** The genesis block of that chain with every attribute rewritten but the
    stored hash. *)
Definition demo_genesis : Block.t :=
  nth 0 (IndianBlockchain.chain (fst demo_three)) demo_unmined.

Definition demo_genesis_forged : Block.t :=
  Block.Make 7 (binary64 1 0)
    [Transaction.Make "Nobody" "Mallory" (binary64 1000000 0) (binary64 2 0)]
    "not a hash" (-1) (Block.hash demo_genesis).

(** The attributes of [demo_block1] entered in another order. *)
Definition demo_block1_reordered : list (string * Json.value) :=
  [ ("nonce", Json.Int (Block.nonce demo_block1));
    ("transactions",
      Json.List (map Transaction.to_dict (Block.transactions demo_block1)));
    ("index", Json.Int (Block.index demo_block1));
    ("previous_hash", Json.Str (Block.previous_hash demo_block1));
    ("timestamp", Json.Float (Block.timestamp demo_block1)) ].

(** Block 1 of the example chain after its first amount was changed to
    [412.0], its nonce reset and the block mined again at difficulty 2. *)
Definition demo_block1_remined :=
  Eval vm_compute in
    let b := Block.Make (Block.index demo_block1) (Block.timestamp demo_block1)
               (match Block.transactions demo_block1 with
                | tx :: txs => set_amount tx (binary64 412 0) :: txs
                | [] => []
                end)
               (Block.previous_hash demo_block1) 0 EmptyString in
    match Block.mine_block 10 (Block.set_hash b (Block.calculate_hash b)) 2 demo_world with
    | Returns b' _ => b'
    | _ => demo_block1
    end.

(** The transactions of a block made up to replace the last block of the
    example chain. *)
Definition demo_forged_transactions : list Transaction.t :=
  [Transaction.Make "Nobody" "Mallory" (binary64 431 0) (binary64 2 0)].

(** The example chain of two blocks with block 1 tampered with, and what
    [mine_pending_transactions("M")] makes of it. *)
Definition demo_sealed_tampered : IndianBlockchain.t :=
  IndianBlockchain.Make
    (<[1%nat := demo_block1_tampered]> (IndianBlockchain.chain (fst demo_sealed)))
    2 [].

Definition demo_tampered_mined :=
  Eval vm_compute in
    match IndianBlockchain.mine_pending_transactions 10 demo_sealed_tampered "M"
            (snd demo_sealed) with
    | Returns bc w => (bc, w)
    | _ => (demo_sealed_tampered, demo_world)
    end.

(** A block that [Block(2, demo_forged_transactions, hash of block 1)]
    builds and [mine_block(2)] mines, to replace the last block of the
    example chain. *)
Definition demo_forged_unmined : Block.t :=
  Block.Make 2 (binary64 1700000040 0) demo_forged_transactions
    (Block.hash demo_block1) 0
    (Block.calculate_hash
       (Block.Make 2 (binary64 1700000040 0) demo_forged_transactions
          (Block.hash demo_block1) 0 EmptyString)).

Definition demo_forged_tip :=
  Eval vm_compute in
    match Block.mine_block 10 demo_forged_unmined 2 (tick (snd demo_three)) with
    | Returns b _ => b
    | _ => demo_forged_unmined
    end.


(** ** The monad *)

Lemma bind_returns {A B} (m : M A) (k : A -> M B) w b w' :
  bind m k w = Returns b w' ->
  exists a w1, m w = Returns a w1 /\ k a w1 = Returns b w'.
Proof.
  unfold bind. destruct (m w) as [a w1| |]; [|discriminate..].
  intros H. by exists a, w1.
Qed.

Lemma bind_of_returns {A B} (m : M A) (k : A -> M B) w a w1 :
  m w = Returns a w1 -> bind m k w = k a w1.
Proof. unfold bind. by intros ->. Qed.

(** ** Strings *)

Lemma length_substring_0 n s :
  (n <= String.length s)%nat -> String.length (String.substring 0 n s) = n.
Proof.
  revert s. induction n as [|n IH]; intros [|c s] Hn; simpl in *; try lia; try done.
  f_equal. apply IH. lia.
Qed.

Lemma get_substring_0 n s k :
  (k < n)%nat -> String.get k (String.substring 0 n s) = String.get k s.
Proof.
  revert s k. induction n as [|n IH]; intros [|c s] k Hk; simpl in *; try lia; try done.
  destruct k as [|k]; [done|]. apply IH. lia.
Qed.

Lemma str_mul_zero_S n :
  Py.str_mul "0" (Z.of_nat (S n)) = String "0" (Py.str_mul "0" (Z.of_nat n)).
Proof. unfold Py.str_mul. rewrite !Nat2Z.id. done. Qed.

Lemma length_str_mul_zero n : String.length (Py.str_mul "0" (Z.of_nat n)) = n.
Proof.
  induction n as [|n IH]; [done|]. rewrite str_mul_zero_S. simpl. by rewrite IH.
Qed.

Lemma get_str_mul_zero n k :
  (k < n)%nat -> String.get k (Py.str_mul "0" (Z.of_nat n)) = Some "0"%char.
Proof.
  revert k. induction n as [|n IH]; intros k Hk; [lia|].
  rewrite str_mul_zero_S. destruct k as [|k]; [done|]. simpl. apply IH. lia.
Qed.

(** The test of the code gives the reading of the specification. *)
Lemma meets_target_leading_zeros d h :
  meets_target d h = true -> leading_zeros d h.
Proof.
  unfold meets_target, leading_zeros. intros H%String.eqb_eq k Hk.
  assert (Hd : 0 <= d) by lia.
  assert (Hlt : ¬ (d <? 0) = true) by (rewrite Z.ltb_lt; lia).
  unfold Py.slice_to in H. destruct (d <? 0); [done|]. clear Hlt.
  rewrite <- (Z2Nat.id d Hd) in H at 2.
  assert (Hlen : (Z.to_nat d <= String.length h)%nat).
  { apply (f_equal String.length) in H. rewrite length_str_mul_zero in H.
    destruct (Z.min_spec d (Z.of_nat (String.length h))) as [[? Hm]|[? Hm]].
    - lia.
    - rewrite Hm, Nat2Z.id in H.
      rewrite length_substring_0 in H by lia. lia. }
  rewrite Z.min_l in H by lia.
  rewrite <- (get_substring_0 (Z.to_nat d)) by lia.
  rewrite H. apply get_str_mul_zero. lia.
Qed.

(** ** Mining *)

Lemma calculate_hash_set_hash b h :
  Block.calculate_hash (Block.set_hash b h) = Block.calculate_hash b.
Proof. reflexivity. Qed.

Lemma mine_step_consistent b :
  Block.hash (mine_step b) = Block.calculate_hash (mine_step b).
Proof. unfold mine_step. by rewrite calculate_hash_set_hash. Qed.

Lemma mine_steps_consistent k b :
  Block.hash b = Block.calculate_hash b ->
  Block.hash (Nat.iter k mine_step b) = Block.calculate_hash (Nat.iter k mine_step b).
Proof. destruct k as [|k]; [done|]. intros _. simpl. apply mine_step_consistent. Qed.

Lemma mine_steps_fields k b :
  let b' := Nat.iter k mine_step b in
  Block.index b' = Block.index b /\
  Block.timestamp b' = Block.timestamp b /\
  Block.transactions b' = Block.transactions b /\
  Block.previous_hash b' = Block.previous_hash b /\
  Block.nonce b' = Block.nonce b + Z.of_nat k.
Proof.
  induction k as [|k IH]; simpl.
  - repeat split; lia.
  - simpl in IH. destruct IH as (? & ? & ? & ? & ?). repeat split; try done. lia.
Qed.

(** When the loop returns, it has taken the least number of steps that
    brings the stored hash under the target, and nothing was printed. *)
Lemma mine_loop_returns fuel b d w b' w' :
  Block.mine_loop fuel b d (Py.str_mul "0" d) w = Returns b' w' ->
  w' = w /\
  exists k : nat,
    (k <= fuel)%nat /\ b' = Nat.iter k mine_step b /\
    meets_target d (Block.hash b') = true /\
    forall j : nat, (j < k)%nat ->
      meets_target d (Block.hash (Nat.iter j mine_step b)) = false.
Proof.
  revert b. induction fuel as [|fuel IH]; intros b; simpl;
    fold (meets_target d (Block.hash b));
    destruct (meets_target d (Block.hash b)) eqn:Hb; simpl; intros H.
  - inversion H; subst. split; [done|]. exists 0%nat. repeat split; try done. lia.
  - discriminate.
  - inversion H; subst. split; [done|]. exists 0%nat. repeat split; try done; lia.
  - apply IH in H as (-> & k & Hk & -> & Hmeet & Hmin). split; [done|].
    exists (S k). rewrite Nat.iter_succ_r. repeat split; try done; [lia|].
    intros [|j] Hj; [done|]. rewrite Nat.iter_succ_r. apply Hmin. lia.
Qed.

(** The loop does return once the fuel covers the first nonce that works. *)
Lemma mine_loop_complete k b d w :
  meets_target d (Block.hash (Nat.iter k mine_step b)) = true ->
  forall fuel, (k <= fuel)%nat ->
  exists b', Block.mine_loop fuel b d (Py.str_mul "0" d) w = Returns b' w.
Proof.
  revert b. induction k as [|k IH]; intros b Hk fuel Hfuel.
  - exists b. destruct fuel; simpl in *;
      fold (meets_target d (Block.hash b)); by rewrite Hk.
  - destruct fuel as [|fuel]; [lia|]. simpl.
    fold (meets_target d (Block.hash b)).
    destruct (meets_target d (Block.hash b)); simpl; [by eexists|].
    rewrite Nat.iter_succ_r in Hk. apply (IH _ Hk). lia.
Qed.

Lemma mine_block_returns fuel b d w b' w' :
  Block.mine_block fuel b d w = Returns b' w' ->
  w' = say (BlockMined (Block.nonce b')) w /\
  exists k : nat,
    (k <= fuel)%nat /\ b' = Nat.iter k mine_step b /\
    meets_target d (Block.hash b') = true /\
    forall j : nat, (j < k)%nat ->
      meets_target d (Block.hash (Nat.iter j mine_step b)) = false.
Proof.
  unfold Block.mine_block. intros (b1 & w1 & Hloop & H)%bind_returns.
  apply mine_loop_returns in Hloop as (-> & Hk).
  unfold bind, print, ret in H. by inversion H; subst.
Qed.

Lemma mine_block_complete k b d w :
  meets_target d (Block.hash (Nat.iter k mine_step b)) = true ->
  forall fuel, (k <= fuel)%nat ->
  exists b' w', Block.mine_block fuel b d w = Returns b' w'.
Proof.
  intros Hk fuel Hfuel.
  destruct (mine_loop_complete k b d w Hk fuel Hfuel) as [b' Hb'].
  exists b', (say (BlockMined (Block.nonce b')) w).
  unfold Block.mine_block. by rewrite (bind_of_returns _ _ _ _ _ Hb').
Qed.

Lemma meets_target_zero h : meets_target 0 h = true.
Proof. unfold meets_target, Py.slice_to. by destruct h. Qed.

(** A block whose stored hash meets the target comes back as it is. *)
Lemma mine_block_met fuel b d w :
  meets_target d (Block.hash b) = true ->
  Block.mine_block fuel b d w = Returns b (say (BlockMined (Block.nonce b)) w).
Proof.
  intros Hmeet. unfold Block.mine_block.
  assert (Hloop : Block.mine_loop fuel b d (Py.str_mul "0" d) w = Returns b w).
  { destruct fuel; simpl; fold (meets_target d (Block.hash b)); by rewrite Hmeet. }
  by rewrite (bind_of_returns _ _ _ _ _ Hloop).
Qed.

(** ** Construction of blocks *)

Lemma block_init_returns index txs prev w :
  Block.init index txs prev w
  = Returns (Block.Make index (clock w (ticks w)) txs prev 0
               (Block.calculate_hash
                  (Block.Make index (clock w (ticks w)) txs prev 0 EmptyString)))
            (tick w).
Proof. reflexivity. Qed.

Lemma block_init_consistent index txs prev w b w' :
  Block.init index txs prev w = Returns b w' ->
  Block.hash b = Block.calculate_hash b.
Proof. rewrite block_init_returns. intros H. by inversion H. Qed.

(** What mining achieves and what it leaves alone. *)
Lemma mine_block_fields fuel b d w b' w' :
  Block.mine_block fuel b d w = Returns b' w' ->
  meets_target d (Block.hash b') = true /\
  (Block.hash b = Block.calculate_hash b ->
   Block.hash b' = Block.calculate_hash b') /\
  Block.index b' = Block.index b /\
  Block.timestamp b' = Block.timestamp b /\
  Block.transactions b' = Block.transactions b /\
  Block.previous_hash b' = Block.previous_hash b.
Proof.
  intros (_ & k & _ & -> & Hmeet & _)%mine_block_returns.
  destruct (mine_steps_fields k b) as (? & ? & ? & ? & _).
  split; [done|]. split; [apply mine_steps_consistent|]. done.
Qed.

(** C4 (as amended).  When [mine_block fuel b d] returns [b'], the first [d]
    characters of the stored hash of [b'] are all ['0']; if the stored hash
    of [b] was the hash of its fields on entry, as it is for a block coming
    out of the constructor, the stored hash of [b'] is the hash recomputed
    from its fields; and [b'] is [b] after [k] turns of "add one to the
    nonce, recompute the hash", where [k] is the least number of turns
    after which the stored hash meets the target. *)
Theorem mine_block_spec fuel b d w b' w' :
  Block.mine_block fuel b d w = Returns b' w' ->
  leading_zeros d (Block.hash b') /\
  (Block.hash b = Block.calculate_hash b ->
   Block.hash b' = Block.calculate_hash b') /\
  exists k : nat,
    b' = Nat.iter k mine_step b /\
    Block.nonce b' = Block.nonce b + Z.of_nat k /\
    meets_target d (Block.hash b') = true /\
    (forall j : nat, (j < k)%nat ->
       meets_target d (Block.hash (Nat.iter j mine_step b)) = false) /\
    Block.index b' = Block.index b /\
    Block.timestamp b' = Block.timestamp b /\
    Block.transactions b' = Block.transactions b /\
    Block.previous_hash b' = Block.previous_hash b.
Proof.
  intros (_ & k & _ & -> & Hmeet & Hmin)%mine_block_returns.
  destruct (mine_steps_fields k b) as (? & ? & ? & ? & ?).
  split; [by apply meets_target_leading_zeros|].
  split; [apply mine_steps_consistent|].
  exists k. repeat split; done.
Qed.

Lemma mine_block_spec_witness :
  Block.mine_block 10 demo_unmined 2 demo_world
  = Returns (Nat.iter 4 mine_step demo_unmined) (say (BlockMined 4) demo_world) /\
  Block.hash demo_unmined = Block.calculate_hash demo_unmined /\
  Block.hash (Nat.iter 4 mine_step demo_unmined)
  = "0000c97d1caa577dd84b6c1fe6785a8deabe3f2e6a8eb3f93cec312cd85cb921" /\
  leading_zeros 2 (Block.hash (Nat.iter 4 mine_step demo_unmined)) /\
  Block.hash (Nat.iter 4 mine_step demo_unmined)
  = Block.calculate_hash (Nat.iter 4 mine_step demo_unmined).
Proof.
  assert (Hrun : Block.mine_block 10 demo_unmined 2 demo_world
                 = Returns (Nat.iter 4 mine_step demo_unmined)
                           (say (BlockMined 4) demo_world))
    by (vm_compute; reflexivity).
  assert (Hin : Block.hash demo_unmined = Block.calculate_hash demo_unmined)
    by (vm_compute; reflexivity).
  destruct (mine_block_spec _ _ _ _ _ _ Hrun) as (Hz & Hc & _).
  split; [exact Hrun|]. split; [exact Hin|].
  split; [vm_compute; reflexivity|]. split; [exact Hz | exact (Hc Hin)].
Defined.

(** A block whose stored hash already meets the target is returned as it
    is, whatever its fields hash to: mining block 1 of the example chain
    again, after the amount of its first transaction was changed, returns
    at once and leaves a stored hash that is not the hash of the fields. *)
Lemma mine_block_stale_hash :
  Block.mine_block 10 demo_block1_tampered 2 demo_world
  = Returns demo_block1_tampered (say (BlockMined 3) demo_world) /\
  leading_zeros 2 (Block.hash demo_block1_tampered) /\
  Block.hash demo_block1_tampered <> Block.calculate_hash demo_block1_tampered.
Proof.
  split; [vm_compute; reflexivity|]. split.
  - apply meets_target_leading_zeros. vm_compute. reflexivity.
  - intros H%String.eqb_eq. vm_compute in H. discriminate H.
Qed.

(** ** Construction of the chain *)

Lemma str_mul_zero_64 : Py.str_mul "0" 64 = zeros64.
Proof. reflexivity. Qed.

Lemma create_genesis_block_returns fuel self w self' w' :
  IndianBlockchain.create_genesis_block fuel self w = Returns self' w' ->
  exists g0 g w1,
    Block.init 0 [] zeros64 w = Returns g0 (tick w) /\
    Block.mine_block fuel g0 (IndianBlockchain.difficulty self) (tick w) = Returns g w1 /\
    self' = IndianBlockchain.Make (IndianBlockchain.chain self ++ [g])
              (IndianBlockchain.difficulty self)
              (IndianBlockchain.pending_transactions self) /\
    w' = say GenesisCreated w1.
Proof.
  unfold IndianBlockchain.create_genesis_block. rewrite str_mul_zero_64.
  intros (g0 & w0 & Hinit & H)%bind_returns.
  apply bind_returns in H as (g & w1 & Hmine & H).
  rewrite block_init_returns in Hinit.
  unfold bind, print, ret in H. simplify_eq.
  eexists _, g, w1. by rewrite block_init_returns.
Qed.

(** What the constructor returns: a chain of one block, mined and
    consistent, and an empty pool. *)
Lemma init_returns fuel d w self w' :
  IndianBlockchain.init fuel d w = Returns self w' ->
  exists g,
    self = IndianBlockchain.Make [g] (default 4 d) [] /\
    Block.index g = 0 /\
    Block.transactions g = [] /\
    Block.previous_hash g = zeros64 /\
    Block.hash g = Block.calculate_hash g /\
    meets_target (default 4 d) (Block.hash g) = true.
Proof.
  unfold IndianBlockchain.init.
  intros (g0 & g & w1 & Hinit & Hmine & -> & _)%create_genesis_block_returns.
  simpl in *. exists g. split; [done|].
  pose proof (block_init_consistent _ _ _ _ _ _ Hinit) as Hcons.
  rewrite block_init_returns in Hinit. inversion Hinit as [Hg0]; clear Hinit.
  apply mine_block_fields in Hmine as (Hmeet & Hkeep & Hi & _ & Ht & Hp).
  rewrite Hi, Ht, Hp, <- Hg0. simpl. repeat split; auto.
Qed.

(** C7.  The chain that [IndianBlockchain(d)] returns holds one block, the
    genesis block: its index is 0, it has no transactions, its previous
    hash is 64 characters ['0'], and the first [d] characters of its stored
    hash are ['0'], [d] being the difficulty the chain was configured
    with. *)
Theorem genesis_invariant fuel d w self w' :
  IndianBlockchain.init fuel d w = Returns self w' ->
  IndianBlockchain.difficulty self = default 4 d /\
  exists g,
    IndianBlockchain.chain self = [g] /\
    IndianBlockchain.chain self !! 0%nat = Some g /\
    Block.index g = 0 /\
    Block.transactions g = [] /\
    Block.previous_hash g = zeros64 /\
    leading_zeros (IndianBlockchain.difficulty self) (Block.hash g).
Proof.
  unfold IndianBlockchain.init.
  intros (g0 & g & w1 & Hinit & Hmine & -> & _)%create_genesis_block_returns.
  simpl in *. split; [done|]. exists g. split; [done|]. split; [done|].
  rewrite block_init_returns in Hinit. inversion Hinit as [Hg0]; clear Hinit.
  apply mine_block_fields in Hmine as (Hz%meets_target_leading_zeros & _ & Hi & _ & Ht & Hp).
  rewrite Hi, Ht, Hp, <- Hg0. done.
Qed.

Lemma genesis_invariant_witness :
  exists self w',
    IndianBlockchain.init 10 (Some 2) demo_world = Returns self w' /\
    exists g,
      IndianBlockchain.chain self = [g] /\
      Block.index g = 0 /\ Block.transactions g = [] /\
      Block.previous_hash g = zeros64 /\
      Block.hash g = "0000c97d1caa577dd84b6c1fe6785a8deabe3f2e6a8eb3f93cec312cd85cb921" /\
      leading_zeros 2 (Block.hash g).
Proof.
  eexists _, _. split; [vm_compute; reflexivity|].
  edestruct (genesis_invariant 10 (Some 2) demo_world) as (_ & g & Hc & _ & Hi & Ht & Hp & Hz);
    [vm_compute; reflexivity|].
  exists g. split; [exact Hc|]. split; [exact Hi|]. split; [exact Ht|].
  split; [exact Hp|]. split; [|exact Hz].
  injection Hc as <-. vm_compute. reflexivity.
Defined.

(** ** Transactions and the pending pool *)

Lemma transaction_init_returns sender recipient amount w :
  Transaction.init sender recipient amount w
  = Returns (Transaction.Make sender recipient amount (clock w (ticks w))) (tick w).
Proof. reflexivity. Qed.

Lemma add_transaction_returns self sender recipient amount w :
  IndianBlockchain.add_transaction self sender recipient amount w
  = Returns
      (IndianBlockchain.Make (IndianBlockchain.chain self)
         (IndianBlockchain.difficulty self)
         (IndianBlockchain.pending_transactions self
            ++ [Transaction.Make sender recipient amount (clock w (ticks w))]))
      (say (TransactionAdded sender recipient amount) (tick w)).
Proof. reflexivity. Qed.

(** What a call of [mine_pending_transactions] that returns has done. *)
Lemma mine_pending_transactions_returns fuel self miner w self' w' :
  IndianBlockchain.mine_pending_transactions fuel self miner w = Returns self' w' ->
  exists tip block0 block w1 w2,
    last (IndianBlockchain.chain self) = Some tip /\
    Block.init (Z.of_nat (length (IndianBlockchain.chain self)))
      (IndianBlockchain.pending_transactions self
         ++ [Transaction.Make "Network" miner IndianBlockchain.reward (clock w (ticks w))])
      (Block.hash tip) w1
    = Returns block0 (tick w1) /\
    Block.mine_block fuel block0 (IndianBlockchain.difficulty self)
      (say (MiningBlock (Block.index block0)) (tick w1))
    = Returns block w2 /\
    self' = IndianBlockchain.Make (IndianBlockchain.chain self ++ [block])
              (IndianBlockchain.difficulty self) [].
Proof.
  unfold IndianBlockchain.mine_pending_transactions.
  intros (self1 & w1 & Hadd & H)%bind_returns.
  rewrite add_transaction_returns in Hadd. simplify_eq. simpl in H.
  apply bind_returns in H as (tip & w1 & Htip & H).
  unfold IndianBlockchain.get_latest_block in Htip. simpl in Htip.
  destruct (last (IndianBlockchain.chain self)) as [tip'|] eqn:Hlast;
    [|discriminate].
  unfold ret in Htip. simplify_eq.
  apply bind_returns in H as (block0 & w1 & Hinit & H).
  apply bind_returns in H as ([] & w2 & Hprint & H).
  apply bind_returns in H as (block & w3 & Hmine & H).
  rewrite block_init_returns in Hinit.
  unfold bind, print, ret in H, Hprint. simplify_eq.
  eexists tip, _, block,
    (say (TransactionAdded "Network" miner IndianBlockchain.reward) (tick w)), w3.
  split; [done|]. split; [apply block_init_returns|].
  split; [exact Hmine | done].
Qed.

(** C3.  When [mine_pending_transactions(m)] returns, the pending pool is
    empty and the chain has grown by exactly one block; the transactions
    of that block are the pool as it was before the call followed by one
    reward transaction whose recipient is [m]; its index is the length the
    chain had; and its previous hash is the stored hash of the block that
    was last before the call. *)
Theorem mine_pending_transactions_spec fuel self miner w self' w' :
  IndianBlockchain.mine_pending_transactions fuel self miner w = Returns self' w' ->
  IndianBlockchain.pending_transactions self' = [] /\
  IndianBlockchain.difficulty self' = IndianBlockchain.difficulty self /\
  exists block reward_tx tip,
    IndianBlockchain.chain self' = IndianBlockchain.chain self ++ [block] /\
    Block.transactions block
    = IndianBlockchain.pending_transactions self ++ [reward_tx] /\
    Transaction.recipient reward_tx = miner /\
    Block.index block = Z.of_nat (length (IndianBlockchain.chain self)) /\
    last (IndianBlockchain.chain self) = Some tip /\
    Block.previous_hash block = Block.hash tip.
Proof.
  intros (tip & block0 & block & w1 & w2 & Htip & Hinit & Hmine & ->)
    %mine_pending_transactions_returns.
  simpl. split; [done|]. split; [done|].
  rewrite block_init_returns in Hinit. inversion Hinit as [Hb0]; clear Hinit.
  apply mine_block_fields in Hmine as (_ & _ & Hi & _ & Ht & Hp).
  eexists block, _, tip. split; [done|].
  rewrite Hi, Ht, Hp, <- Hb0. simpl. done.
Qed.

Lemma mine_pending_transactions_spec_witness :
  IndianBlockchain.mine_pending_transactions 10 (fst demo_pending) "M" (snd demo_pending)
  = Returns (fst demo_sealed) (snd demo_sealed) /\
  IndianBlockchain.pending_transactions (fst demo_sealed) = [] /\
  exists block reward_tx tip,
    IndianBlockchain.chain (fst demo_sealed)
    = IndianBlockchain.chain (fst demo_pending) ++ [block] /\
    Block.transactions block
    = IndianBlockchain.pending_transactions (fst demo_pending) ++ [reward_tx] /\
    Transaction.recipient reward_tx = "M" /\
    Block.index block = 1 /\
    last (IndianBlockchain.chain (fst demo_pending)) = Some tip /\
    Block.previous_hash block = Block.hash tip.
Proof.
  assert (Hrun : IndianBlockchain.mine_pending_transactions 10 (fst demo_pending) "M"
                   (snd demo_pending)
                 = Returns (fst demo_sealed) (snd demo_sealed))
    by (vm_compute; reflexivity).
  split; [exact Hrun|].
  destruct (mine_pending_transactions_spec _ _ _ _ _ _ Hrun)
    as (Hpool & _ & block & reward_tx & tip & H).
  split; [exact Hpool|]. exists block, reward_tx, tip. exact H.
Defined.

(** The call returns as soon as the chain has a last block and the fuel
    covers the nonce that mining needs. *)
Lemma mine_pending_transactions_complete fuel self miner w tip k :
  last (IndianBlockchain.chain self) = Some tip ->
  (k <= fuel)%nat ->
  meets_target (IndianBlockchain.difficulty self)
    (Block.hash (Nat.iter k mine_step (candidate self miner w tip))) = true ->
  exists self' w',
    IndianBlockchain.mine_pending_transactions fuel self miner w = Returns self' w'.
Proof.
  intros Htip Hk Hmeet.
  set (w1 := say (TransactionAdded "Network" miner IndianBlockchain.reward) (tick w)).
  set (w2 := say (MiningBlock (Z.of_nat (length (IndianBlockchain.chain self)))) (tick w1)).
  destruct (mine_block_complete k (candidate self miner w tip)
              (IndianBlockchain.difficulty self) w2 Hmeet fuel Hk)
    as (block & w3 & Hmine).
  unfold IndianBlockchain.mine_pending_transactions.
  rewrite (bind_of_returns _ _ _ _ _ (add_transaction_returns _ _ _ _ _)).
  unfold IndianBlockchain.get_latest_block at 1. simpl.
  rewrite Htip. unfold bind at 1. unfold ret at 1.
  rewrite (bind_of_returns _ _ _ _ _ (block_init_returns _ _ _ _)).
  unfold bind at 1. unfold print at 1.
  unfold candidate, w2, w1, say, tick in Hmine. simpl in Hmine.
  unfold bind at 1. simpl. rewrite Hmine. simpl. by eexists _, _.
Qed.

(** C10.  With an empty pool [mine_pending_transactions(m)] still goes
    through: it needs a last block to link to and a nonce within reach,
    nothing of the pool.  The block it appends holds exactly one
    transaction, the reward, from ["Network"] to [m] and of amount [10.0].
    And a chain constructed without a difficulty has difficulty 4. *)
Theorem empty_pool_and_default_difficulty :
  (forall fuel self miner w tip k,
     IndianBlockchain.pending_transactions self = [] ->
     last (IndianBlockchain.chain self) = Some tip ->
     (k <= fuel)%nat ->
     meets_target (IndianBlockchain.difficulty self)
       (Block.hash (Nat.iter k mine_step (candidate self miner w tip))) = true ->
     exists self' w',
       IndianBlockchain.mine_pending_transactions fuel self miner w = Returns self' w') /\
  (forall fuel self miner w self' w',
     IndianBlockchain.pending_transactions self = [] ->
     IndianBlockchain.mine_pending_transactions fuel self miner w = Returns self' w' ->
     exists block reward_tx,
       IndianBlockchain.chain self' = IndianBlockchain.chain self ++ [block] /\
       Block.transactions block = [reward_tx] /\
       Transaction.sender reward_tx = "Network" /\
       Transaction.recipient reward_tx = miner /\
       Transaction.amount reward_tx = binary64 10 0 /\
       JsonDumps.floatstr (Transaction.amount reward_tx) = "10.0") /\
  (forall fuel w self w',
     IndianBlockchain.init fuel None w = Returns self w' ->
     IndianBlockchain.difficulty self = 4).
Proof.
  split; [|split].
  - intros fuel self miner w tip k _. apply mine_pending_transactions_complete.
  - intros fuel self miner w self' w' Hpool
      (tip & block0 & block & w1 & w2 & Htip & Hinit & Hmine & ->)
      %mine_pending_transactions_returns.
    rewrite block_init_returns in Hinit. inversion Hinit as [Hb0]; clear Hinit.
    apply mine_block_returns in Hmine as (_ & k & _ & -> & _).
    destruct (mine_steps_fields k block0) as (_ & _ & Ht & _).
    eexists _, _. split; [done|]. simpl in Ht. rewrite Ht, <- Hb0, Hpool.
    simpl. done.
  - intros fuel w self w'. unfold IndianBlockchain.init.
    by intros (g0 & g & w1 & _ & _ & -> & _)%create_genesis_block_returns.
Qed.

Lemma empty_pool_and_default_difficulty_witness :
  IndianBlockchain.pending_transactions (fst demo_fresh) = [] /\
  (exists self' w' block reward_tx,
     IndianBlockchain.mine_pending_transactions 10 (fst demo_fresh) "W" (snd demo_fresh)
     = Returns self' w' /\
     IndianBlockchain.chain self' = IndianBlockchain.chain (fst demo_fresh) ++ [block] /\
     Block.transactions block = [reward_tx] /\
     Transaction.sender reward_tx = "Network" /\
     Transaction.recipient reward_tx = "W" /\
     Transaction.amount reward_tx = binary64 10 0) /\
  (exists self w',
     IndianBlockchain.init 10 None demo_world = Returns self w' /\
     IndianBlockchain.difficulty self = 4).
Proof.
  destruct empty_pool_and_default_difficulty as (Hgo & Hblock & Hdefault).
  assert (Hpool : IndianBlockchain.pending_transactions (fst demo_fresh) = [])
    by reflexivity.
  split; [exact Hpool|]. split.
  - edestruct (Hgo 10%nat (fst demo_fresh) "W" (snd demo_fresh)
                 (Nat.iter 4 mine_step demo_unmined) 8%nat Hpool)
      as (self' & w' & Hrun).
    + vm_compute. reflexivity.
    + vm_compute. lia.
    + vm_compute. reflexivity.
    + destruct (Hblock _ _ _ _ _ _ Hpool Hrun)
        as (block & reward_tx & Hc & Ht & Hs & Hr & Ha & _).
      exists self', w', block, reward_tx. by repeat (split; [assumption|]).
  - eexists _, _. split; [vm_compute; reflexivity|].
    eapply (Hdefault 10%nat demo_world). vm_compute. reflexivity.
Defined.

(** C5 (as amended).  [Transaction(sender, recipient, amount)] returns for
    every amount, finite or not, and stamps the transaction with the
    reading of the clock; [add_transaction] returns for every amount as
    well, with the new transaction at the end of the pool and the chain
    untouched.  Nothing checks the amount. *)
Theorem transaction_always_constructed sender recipient amount w :
  Transaction.init sender recipient amount w
  = Returns (Transaction.Make sender recipient amount (clock w (ticks w))) (tick w) /\
  forall self,
    IndianBlockchain.add_transaction self sender recipient amount w
    = Returns
        (IndianBlockchain.Make (IndianBlockchain.chain self)
           (IndianBlockchain.difficulty self)
           (IndianBlockchain.pending_transactions self
              ++ [Transaction.Make sender recipient amount (clock w (ticks w))]))
        (say (TransactionAdded sender recipient amount) (tick w)).
Proof. split; [reflexivity | intros self; reflexivity]. Qed.

(** A transaction whose amount is NaN is constructed, and one whose amount
    is infinite is added to the pool: neither call raises. *)
Lemma nonfinite_amount_accepted :
  Py.isfinite S754_nan = false /\
  Py.isfinite (S754_infinity false) = false /\
  Transaction.init "Rajesh" "Priya" S754_nan demo_world
  = Returns (Transaction.Make "Rajesh" "Priya" S754_nan (binary64 6800000059 (-2)))
            (tick demo_world) /\
  (forall e w', Transaction.init "Rajesh" "Priya" S754_nan demo_world <> Raises e w') /\
  exists self' w',
    IndianBlockchain.add_transaction (fst demo_fresh) "Rajesh" "Priya"
      (S754_infinity false) (snd demo_fresh) = Returns self' w' /\
    IndianBlockchain.pending_transactions self'
    = [Transaction.Make "Rajesh" "Priya" (S754_infinity false) (binary64 1700000032 0)].
Proof.
  split; [reflexivity|]. split; [reflexivity|]. split; [reflexivity|].
  split; [intros e w' H; discriminate H|].
  eexists _, _. split; [apply add_transaction_returns|]. vm_compute. reflexivity.
Qed.

(** ** Validation *)

(** One turn of the [for] loop. *)
Lemma is_chain_valid_loop_step self i rest w cur prev :
  IndianBlockchain.chain self !! i = Some cur ->
  IndianBlockchain.chain self !! (i - 1)%nat = Some prev ->
  IndianBlockchain.is_chain_valid_loop self (i :: rest) w
  = if block_ok (IndianBlockchain.difficulty self) prev cur
    then IndianBlockchain.is_chain_valid_loop self rest w
    else Returns false (say (failure_message (IndianBlockchain.difficulty self) i prev cur) w).
Proof.
  intros Hcur Hprev. simpl.
  unfold IndianBlockchain.getitem, bind at 1. rewrite Hcur. unfold ret at 1.
  unfold bind at 1. rewrite Hprev. unfold ret at 1.
  unfold block_ok, failure_message, hash_ok, link_ok, pow_ok, meets_target.
  destruct (String.eqb (Block.hash cur) (Block.calculate_hash cur)); simpl; [|done].
  destruct (String.eqb (Block.previous_hash cur) (Block.hash prev)); simpl; [|done].
  by destruct (String.eqb _ _).
Qed.

Lemma is_chain_valid_loop_nil self w :
  IndianBlockchain.is_chain_valid_loop self [] w = Returns true (say BlockchainValid w).
Proof. reflexivity. Qed.

(** The loop over [start, start + len): either every block passes and the
    answer is [True], or the answer is [False] and names the first block
    that fails. *)
Lemma is_chain_valid_loop_cases self w len : forall start,
  (1 <= start)%nat ->
  (len = 0 \/ start + len <= length (IndianBlockchain.chain self))%nat ->
  let c := IndianBlockchain.chain self in
  let d := IndianBlockchain.difficulty self in
  ((forall i, (start <= i < start + len)%nat -> ok_at c d i) /\
   IndianBlockchain.is_chain_valid_loop self (seq start len) w
   = Returns true (say BlockchainValid w))
  \/
  (exists i cur prev,
     (start <= i < start + len)%nat /\
     c !! i = Some cur /\ c !! (i - 1)%nat = Some prev /\
     (forall j, (start <= j < i)%nat -> ok_at c d j) /\
     block_ok d prev cur = false /\
     IndianBlockchain.is_chain_valid_loop self (seq start len) w
     = Returns false (say (failure_message d i prev cur) w)).
Proof.
  induction len as [|len IH]; intros start Hstart Hlen; cbv zeta in *.
  - left. split; [intros i Hi; lia | apply is_chain_valid_loop_nil].
  - destruct Hlen as [Hlen|Hlen]; [discriminate|].
    destruct (lookup_lt_is_Some_2 (IndianBlockchain.chain self) start)
      as [cur Hcur]; [lia|].
    destruct (lookup_lt_is_Some_2 (IndianBlockchain.chain self) (start - 1))
      as [prev Hprev]; [lia|].
    simpl seq. rewrite (is_chain_valid_loop_step _ _ _ _ _ _ Hcur Hprev).
    destruct (block_ok (IndianBlockchain.difficulty self) prev cur) eqn:Hok.
    + destruct (IH (S start)) as [[Hall Hrun]|(i & cur' & prev' & Hi & ? & ? & Hbefore & ? & ?)];
        [lia | right; lia | |].
      * left. split; [|done]. intros i Hi.
        destruct (decide (i = start)) as [->|]; [by exists cur, prev|].
        apply Hall. lia.
      * right. exists i, cur', prev'. repeat split; try done; try lia.
        intros j Hj. destruct (decide (j = start)) as [->|]; [by exists cur, prev|].
        apply Hbefore. lia.
    + right. exists start, cur, prev. repeat split; try done; try lia.
Qed.

Lemma is_chain_valid_cases self w :
  let c := IndianBlockchain.chain self in
  let d := IndianBlockchain.difficulty self in
  ((forall i, (1 <= i < length c)%nat -> ok_at c d i) /\
   IndianBlockchain.is_chain_valid self w = Returns true (say BlockchainValid w))
  \/
  (exists i cur prev,
     (1 <= i < length c)%nat /\
     c !! i = Some cur /\ c !! (i - 1)%nat = Some prev /\
     (forall j, (1 <= j < i)%nat -> ok_at c d j) /\
     block_ok d prev cur = false /\
     IndianBlockchain.is_chain_valid self w
     = Returns false (say (failure_message d i prev cur) w)).
Proof.
  cbv zeta. unfold IndianBlockchain.is_chain_valid.
  destruct (is_chain_valid_loop_cases self w
              (length (IndianBlockchain.chain self) - 1) 1) as [[Hall Hrun]|H];
    [lia | lia | |].
  - left. split; [|done]. intros i Hi. apply Hall. lia.
  - right. destruct H as (i & cur & prev & Hi & H). exists i, cur, prev.
    split; [lia|]. done.
Qed.

Lemma ok_at_not_failing c d i cur prev :
  c !! i = Some cur -> c !! (i - 1)%nat = Some prev ->
  block_ok d prev cur = false -> ~ ok_at c d i.
Proof. intros Hc Hp Hf (cur' & prev' & ? & ? & ?). simplify_eq. congruence. Qed.

(** A chain that passes returns [True] and prints the verdict. *)
Lemma is_chain_valid_true self w :
  (forall i, (1 <= i < length (IndianBlockchain.chain self))%nat ->
     ok_at (IndianBlockchain.chain self) (IndianBlockchain.difficulty self) i) ->
  IndianBlockchain.is_chain_valid self w = Returns true (say BlockchainValid w).
Proof.
  intros Hall. destruct (is_chain_valid_cases self w) as [[_ ?]|H]; [done|].
  destruct H as (i & cur & prev & Hi & Hc & Hp & _ & Hf & _).
  destruct (ok_at_not_failing _ _ _ _ _ Hc Hp Hf). by apply Hall.
Qed.

(** A chain with a first failing block at [i] returns [False] and names it. *)
Lemma is_chain_valid_false self w i cur prev :
  let c := IndianBlockchain.chain self in
  let d := IndianBlockchain.difficulty self in
  (1 <= i)%nat -> c !! i = Some cur -> c !! (i - 1)%nat = Some prev ->
  (forall j, (1 <= j < i)%nat -> ok_at c d j) ->
  block_ok d prev cur = false ->
  IndianBlockchain.is_chain_valid self w
  = Returns false (say (failure_message d i prev cur) w).
Proof.
  cbv zeta. intros Hi Hc Hp Hbefore Hf.
  assert (Hlen : (i < length (IndianBlockchain.chain self))%nat)
    by (by eapply lookup_lt_Some).
  destruct (is_chain_valid_cases self w) as [[Hall _]|H].
  - destruct (ok_at_not_failing _ _ _ _ _ Hc Hp Hf). apply Hall. lia.
  - destruct H as (i' & cur' & prev' & Hi' & Hc' & Hp' & Hbefore' & Hf' & Hrun).
    assert (i' = i) as ->.
    { destruct (Nat.lt_trichotomy i' i) as [Hlt|[->|Hlt]]; [|done|].
      - destruct (ok_at_not_failing _ _ _ _ _ Hc' Hp' Hf'). apply Hbefore. lia.
      - destruct (ok_at_not_failing _ _ _ _ _ Hc Hp Hf). apply Hbefore'. lia. }
    by simplify_eq.
Qed.

(** For a difficulty that is a count, the test of the code says that the
    first [d] characters exist and are ['0']. *)
Lemma get_all_length n s :
  (forall k, (k < n)%nat -> String.get k s = Some "0"%char) ->
  (n <= String.length s)%nat.
Proof.
  revert s. induction n as [|n IH]; intros s H; [lia|].
  destruct s as [|a s].
  - specialize (H 0%nat). simpl in H. discriminate H. lia.
  - simpl. apply le_n_S, IH. intros k Hk. apply (H (S k)). lia.
Qed.

Lemma substring_all_zero n s :
  (forall k, (k < n)%nat -> String.get k s = Some "0"%char) ->
  String.substring 0 n s = Py.str_mul "0" (Z.of_nat n).
Proof.
  revert s. induction n as [|n IH]; intros s H.
  - by destruct s.
  - rewrite str_mul_zero_S. destruct s as [|a s].
    + specialize (H 0%nat). simpl in H. discriminate H. lia.
    + simpl. f_equal.
      * specialize (H 0%nat). simpl in H. injection H; [done | lia].
      * apply IH. intros k Hk. apply (H (S k)). lia.
Qed.

Lemma meets_target_iff_leading_zeros d h :
  0 <= d -> meets_target d h = true <-> leading_zeros d h.
Proof.
  intros Hd. split; [apply meets_target_leading_zeros|].
  intros H. unfold meets_target. apply String.eqb_eq.
  assert (Hall : forall k, (k < Z.to_nat d)%nat -> String.get k h = Some "0"%char)
    by (intros k Hk; apply H; lia).
  pose proof (get_all_length _ _ Hall) as Hlen.
  unfold Py.slice_to. destruct (d <? 0) eqn:Hneg; [apply Z.ltb_lt in Hneg; lia|].
  rewrite Z.min_l by lia. rewrite (substring_all_zero _ _ Hall).
  by rewrite Z2Nat.id.
Qed.

Lemma block_ok_iff d prev cur :
  0 <= d ->
  block_ok d prev cur = true <->
  Block.hash cur = Block.calculate_hash cur /\
  Block.previous_hash cur = Block.hash prev /\
  leading_zeros d (Block.hash cur).
Proof.
  intros Hd. unfold block_ok, hash_ok, link_ok, pow_ok.
  rewrite !andb_true_iff, !String.eqb_eq, (meets_target_iff_leading_zeros _ _ Hd).
  tauto.
Qed.

Lemma ok_at_prefix c later d i j :
  (j <= i)%nat -> (i < length c)%nat ->
  ok_at c d j -> ok_at (take (S i) c ++ later) d j.
Proof.
  intros Hj Hi (cur & prev & Hc & Hp & Hok). exists cur, prev.
  assert (Hlen : length (take (S i) c) = S i) by (rewrite length_take; lia).
  rewrite !lookup_app_l by lia. rewrite !lookup_take_lt by lia. done.
Qed.

(** C1.  [is_chain_valid] visits the indices 1..N-1 in order and, at index
    [i], checks that (a) the stored hash is the hash recomputed from the
    fields, (b) the stored previous hash is the stored hash of block
    [i-1], (c) the first [difficulty] characters of the stored hash are
    ['0'].  It returns [True] exactly when the three checks pass at every
    index; otherwise it returns [False] at the first index where one
    fails, prints the line for the first check that fails there and
    nothing else, and the blocks after that index have no part in the
    answer. *)
Theorem is_chain_valid_spec self w :
  let c := IndianBlockchain.chain self in
  let d := IndianBlockchain.difficulty self in
  (forall prev cur, 0 <= d ->
     block_ok d prev cur = true <->
     Block.hash cur = Block.calculate_hash cur /\
     Block.previous_hash cur = Block.hash prev /\
     leading_zeros d (Block.hash cur)) /\
  ((exists w', IndianBlockchain.is_chain_valid self w = Returns true w') <->
   (forall i, (1 <= i < length c)%nat -> ok_at c d i)) /\
  (IndianBlockchain.is_chain_valid self w = Returns true (say BlockchainValid w)
   \/
   exists i cur prev,
     (1 <= i < length c)%nat /\
     c !! i = Some cur /\ c !! (i - 1)%nat = Some prev /\
     (forall j, (1 <= j < i)%nat -> ok_at c d j) /\
     block_ok d prev cur = false /\
     IndianBlockchain.is_chain_valid self w
     = Returns false (say (failure_message d i prev cur) w) /\
     forall later pending,
       IndianBlockchain.is_chain_valid
         (IndianBlockchain.Make (take (S i) c ++ later) d pending) w
       = Returns false (say (failure_message d i prev cur) w)).
Proof.
  cbv zeta. split; [intros prev cur Hd; by apply block_ok_iff|].
  destruct (is_chain_valid_cases self w) as [[Hall Hrun]|H].
  - split; [|by left]. split; [done|]. intros _. by eexists.
  - destruct H as (i & cur & prev & Hi & Hc & Hp & Hbefore & Hf & Hrun). split.
    + split.
      * intros [w' Hw']. rewrite Hrun in Hw'. discriminate.
      * intros Hall. destruct (ok_at_not_failing _ _ _ _ _ Hc Hp Hf). by apply Hall.
    + right. exists i, cur, prev. do 6 (split; [done|]).
      intros later pending.
      assert (Hlen : length (take (S i) (IndianBlockchain.chain self)) = S i)
        by (rewrite length_take; lia).
      apply (is_chain_valid_false
               (IndianBlockchain.Make (take (S i) (IndianBlockchain.chain self) ++ later)
                  (IndianBlockchain.difficulty self) pending)); simpl; [lia| | | |done].
      * rewrite lookup_app_l by lia. by rewrite lookup_take_lt by lia.
      * rewrite lookup_app_l by lia. by rewrite lookup_take_lt by lia.
      * intros j Hj. apply ok_at_prefix; [lia..|]. by apply Hbefore.
Qed.

Lemma is_chain_valid_spec_witness :
  0 <= IndianBlockchain.difficulty (fst demo_three) /\
  (forall i, (1 <= i < length (IndianBlockchain.chain (fst demo_three)))%nat ->
     ok_at (IndianBlockchain.chain (fst demo_three))
       (IndianBlockchain.difficulty (fst demo_three)) i) /\
  IndianBlockchain.is_chain_valid (fst demo_three) (snd demo_three)
  = Returns true (say BlockchainValid (snd demo_three)) /\
  IndianBlockchain.is_chain_valid demo_three_tampered (snd demo_three)
  = Returns false (say (InvalidHash 1) (snd demo_three)) /\
  forall prev cur,
    block_ok (IndianBlockchain.difficulty (fst demo_three)) prev cur = true ->
    leading_zeros 2 (Block.hash cur).
Proof.
  destruct (is_chain_valid_spec (fst demo_three) (snd demo_three))
    as (Hread & Hiff & _).
  assert (Hd : 0 <= IndianBlockchain.difficulty (fst demo_three))
    by (vm_compute; discriminate).
  assert (Hrun : IndianBlockchain.is_chain_valid (fst demo_three) (snd demo_three)
                 = Returns true (say BlockchainValid (snd demo_three)))
    by (vm_compute; reflexivity).
  split; [exact Hd|]. split; [apply Hiff; eexists; exact Hrun|].
  split; [exact Hrun|]. split; [vm_compute; reflexivity|].
  intros prev cur Hok. by apply (Hread prev cur Hd).
Defined.

(** ** The genesis block *)

Lemma is_chain_valid_loop_genesis g g' rest d p p' indices w :
  Block.hash g' = Block.hash g ->
  Forall (fun i => 1 <= i)%nat indices ->
  IndianBlockchain.is_chain_valid_loop (IndianBlockchain.Make (g' :: rest) d p') indices w
  = IndianBlockchain.is_chain_valid_loop (IndianBlockchain.Make (g :: rest) d p) indices w.
Proof.
  intros Hhash. induction indices as [|i indices IH]; intros Hpos; [done|].
  inversion Hpos as [|? ? Hi Hpos']; subst.
  destruct i as [|[|i]]; [lia| |];
    simpl; unfold IndianBlockchain.getitem, bind; simpl;
    destruct (rest !! _) as [cur|]; simpl; try done.
  - rewrite Hhash. repeat (destruct (negb _); [done|]). by apply IH.
  - destruct (rest !! i) as [prev|]; simpl; [|done].
    repeat (destruct (negb _); [done|]). by apply IH.
Qed.

Lemma Forall_seq_ge start len : Forall (fun i => start <= i)%nat (seq start len).
Proof.
  apply Forall_forall. intros i Hi%list_elem_of_In%in_seq. lia.
Qed.

(** C9.  The genesis block is never examined but for its stored hash:
    rewriting its other attributes leaves the outcome of [is_chain_valid]
    as it was, so a chain that passed still passes.  A chain of at most
    one block always passes. *)
Theorem genesis_never_checked :
  (forall g g' rest d p w,
     Block.hash g' = Block.hash g ->
     IndianBlockchain.is_chain_valid (IndianBlockchain.Make (g' :: rest) d p) w
     = IndianBlockchain.is_chain_valid (IndianBlockchain.Make (g :: rest) d p) w) /\
  (forall g g' rest d p w w',
     Block.hash g' = Block.hash g ->
     IndianBlockchain.is_chain_valid (IndianBlockchain.Make (g :: rest) d p) w
     = Returns true w' ->
     IndianBlockchain.is_chain_valid (IndianBlockchain.Make (g' :: rest) d p) w
     = Returns true w') /\
  (forall self w,
     (length (IndianBlockchain.chain self) <= 1)%nat ->
     IndianBlockchain.is_chain_valid self w = Returns true (say BlockchainValid w)).
Proof.
  assert (Hsame : forall g g' rest d p w,
     Block.hash g' = Block.hash g ->
     IndianBlockchain.is_chain_valid (IndianBlockchain.Make (g' :: rest) d p) w
     = IndianBlockchain.is_chain_valid (IndianBlockchain.Make (g :: rest) d p) w).
  { intros g g' rest d p w Hhash. unfold IndianBlockchain.is_chain_valid. simpl.
    apply is_chain_valid_loop_genesis; [done | apply Forall_seq_ge]. }
  split; [exact Hsame|]. split.
  - intros g g' rest d p w w' Hhash Hrun. by rewrite (Hsame g g').
  - intros self w Hlen. unfold IndianBlockchain.is_chain_valid.
    replace (length (IndianBlockchain.chain self) - 1)%nat with 0%nat by lia.
    reflexivity.
Qed.

Lemma genesis_never_checked_witness :
  Block.hash demo_genesis_forged = Block.hash demo_genesis /\
  demo_genesis_forged <> demo_genesis /\
  IndianBlockchain.is_chain_valid
    (IndianBlockchain.Make (demo_genesis :: tail (IndianBlockchain.chain (fst demo_three))) 2 [])
    (snd demo_three)
  = Returns true (say BlockchainValid (snd demo_three)) /\
  IndianBlockchain.is_chain_valid
    (IndianBlockchain.Make (demo_genesis_forged :: tail (IndianBlockchain.chain (fst demo_three))) 2 [])
    (snd demo_three)
  = Returns true (say BlockchainValid (snd demo_three)) /\
  IndianBlockchain.is_chain_valid (fst demo_fresh) (snd demo_fresh)
  = Returns true (say BlockchainValid (snd demo_fresh)).
Proof.
  destruct genesis_never_checked as (_ & Hstill & Hshort).
  assert (Hhash : Block.hash demo_genesis_forged = Block.hash demo_genesis)
    by reflexivity.
  assert (Hrun : IndianBlockchain.is_chain_valid
            (IndianBlockchain.Make
               (demo_genesis :: tail (IndianBlockchain.chain (fst demo_three))) 2 [])
            (snd demo_three)
          = Returns true (say BlockchainValid (snd demo_three)))
    by (vm_compute; reflexivity).
  split; [exact Hhash|]. split; [intros H; vm_compute in H; discriminate H|].
  split; [exact Hrun|]. split; [exact (Hstill _ _ _ _ _ _ _ Hhash Hrun)|].
  apply Hshort. vm_compute. lia.
Defined.

(** ** The invariant of the chains the module builds *)


Lemma linked_init fuel d w self w' :
  IndianBlockchain.init fuel d w = Returns self w' ->
  linked (IndianBlockchain.chain self) /\ all_ok self.
Proof.
  intros (g & -> & _ & _ & Hp & _)%init_returns.
  unfold all_ok. simpl. split; [split|].
  - by exists g.
  - intros i cur prev Hcur. destruct i; discriminate Hcur.
  - simpl. intros i Hi. lia.
Qed.

Lemma linked_add_transaction self sender recipient amount w self' w' :
  IndianBlockchain.add_transaction self sender recipient amount w = Returns self' w' ->
  IndianBlockchain.chain self' = IndianBlockchain.chain self /\
  IndianBlockchain.difficulty self' = IndianBlockchain.difficulty self.
Proof. rewrite add_transaction_returns. intros H. by simplify_eq. Qed.

(** The block that [mine_pending_transactions] appends passes the three
    checks against the block that was last. *)
Lemma mine_pending_transactions_block fuel self miner w self' w' :
  IndianBlockchain.mine_pending_transactions fuel self miner w = Returns self' w' ->
  exists tip block,
    last (IndianBlockchain.chain self) = Some tip /\
    IndianBlockchain.chain self' = IndianBlockchain.chain self ++ [block] /\
    IndianBlockchain.difficulty self' = IndianBlockchain.difficulty self /\
    block_ok (IndianBlockchain.difficulty self) tip block = true.
Proof.
  intros (tip & block0 & block & w1 & w2 & Htip & Hinit & Hmine & ->)
    %mine_pending_transactions_returns.
  exists tip, block. do 3 (split; [done|]).
  pose proof (block_init_consistent _ _ _ _ _ _ Hinit) as Hcons.
  rewrite block_init_returns in Hinit. inversion Hinit as [Hb0]; clear Hinit.
  apply mine_block_fields in Hmine as (Hmeet & Hkeep & _ & _ & _ & Hp).
  unfold block_ok, hash_ok, link_ok, pow_ok.
  rewrite Hmeet, Hp, <- Hb0. simpl.
  rewrite (proj2 (String.eqb_eq _ _) (Hkeep Hcons)), String.eqb_refl. done.
Qed.

Lemma last_lookup_length {A} (l : list A) x :
  last l = Some x -> l !! (length l - 1)%nat = Some x /\ (0 < length l)%nat.
Proof.
  rewrite last_lookup. intros H. split.
  - by replace (length l - 1)%nat with (pred (length l)) by lia.
  - destruct l; [discriminate|simpl; lia].
Qed.

Lemma linked_mine_pending_transactions fuel self miner w self' w' :
  IndianBlockchain.mine_pending_transactions fuel self miner w = Returns self' w' ->
  linked (IndianBlockchain.chain self) ->
  linked (IndianBlockchain.chain self').
Proof.
  intros (tip & block & Htip & Hc & _ & Hok)%mine_pending_transactions_block
    [(g & Hg & Hgp) Hlink].
  apply last_lookup_length in Htip as [Htip Hlen].
  rewrite Hc. split.
  - exists g. by rewrite lookup_app_l by lia.
  - intros i cur prev Hcur Hprev.
    destruct (decide (S i < length (IndianBlockchain.chain self))%nat).
    + rewrite lookup_app_l in Hcur, Hprev by lia. by eapply Hlink.
    + assert (S i = length (IndianBlockchain.chain self)) as Hi.
      { apply lookup_lt_Some in Hcur. rewrite length_app in Hcur. simpl in Hcur. lia. }
      rewrite lookup_app_r in Hcur by lia. rewrite lookup_app_l in Hprev by lia.
      replace (S i - length (IndianBlockchain.chain self))%nat with 0%nat in Hcur by lia.
      replace i with (length (IndianBlockchain.chain self) - 1)%nat in Hprev by lia.
      simpl in Hcur. simplify_eq.
      unfold block_ok, link_ok in Hok.
      apply andb_true_iff in Hok as [[_ Hl]%andb_true_iff _].
      by apply String.eqb_eq.
Qed.

Lemma all_ok_mine_pending_transactions fuel self miner w self' w' :
  IndianBlockchain.mine_pending_transactions fuel self miner w = Returns self' w' ->
  all_ok self -> all_ok self'.
Proof.
  intros (tip & block & Htip & Hc & Hd & Hok)%mine_pending_transactions_block Hall.
  apply last_lookup_length in Htip as [Htip Hlen].
  unfold all_ok. rewrite Hc, Hd, length_app. simpl. intros i Hi.
  destruct (decide (i < length (IndianBlockchain.chain self))%nat).
  - destruct (Hall i) as (cur & prev & ? & ? & ?); [lia|].
    exists cur, prev. by rewrite !lookup_app_l by lia.
  - assert (i = length (IndianBlockchain.chain self)) as -> by lia.
    exists block, tip. rewrite lookup_app_r by lia. rewrite lookup_app_l by lia.
    by rewrite Nat.sub_diag.
Qed.

Lemma reachable_invariant self :
  reachable self -> linked (IndianBlockchain.chain self) /\ all_ok self.
Proof.
  induction 1 as [fuel d w self w' Hinit
                 |self sender recipient amount w self' w' _ [IHl IHa] Hadd
                 |fuel self miner w self' w' _ [IHl IHa] Hmine].
  - by eapply linked_init.
  - apply linked_add_transaction in Hadd as [Hc Hd].
    unfold all_ok. by rewrite Hc, Hd.
  - split.
    + by eapply linked_mine_pending_transactions.
    + by eapply all_ok_mine_pending_transactions.
Qed.

(** C6.  Construction establishes the linkage invariant (the previous hash
    of block 0 is 64 characters ['0'], and the previous hash of every
    later block is the stored hash of the block before it);
    [add_transaction] and [mine_pending_transactions] preserve it; so
    every chain reached from construction by calls of these two satisfies
    it, and [is_chain_valid] returns [True] on such a chain. *)
Theorem reachable_chain_linked_and_valid :
  (forall fuel d w self w',
     IndianBlockchain.init fuel d w = Returns self w' ->
     linked (IndianBlockchain.chain self)) /\
  (forall self sender recipient amount w self' w',
     IndianBlockchain.add_transaction self sender recipient amount w = Returns self' w' ->
     linked (IndianBlockchain.chain self) ->
     linked (IndianBlockchain.chain self')) /\
  (forall fuel self miner w self' w',
     IndianBlockchain.mine_pending_transactions fuel self miner w = Returns self' w' ->
     linked (IndianBlockchain.chain self) ->
     linked (IndianBlockchain.chain self')) /\
  (forall self,
     reachable self ->
     (exists g, IndianBlockchain.chain self !! 0%nat = Some g /\
                Block.previous_hash g = zeros64) /\
     (forall i cur prev,
        (0 < i)%nat ->
        IndianBlockchain.chain self !! i = Some cur ->
        IndianBlockchain.chain self !! (i - 1)%nat = Some prev ->
        Block.previous_hash cur = Block.hash prev) /\
     forall w,
       IndianBlockchain.is_chain_valid self w = Returns true (say BlockchainValid w)).
Proof.
  split; [|split; [|split]].
  - intros fuel d w self w' H. by apply linked_init in H as [? _].
  - intros self sender recipient amount w self' w' [Hc _]%linked_add_transaction.
    by rewrite Hc.
  - intros fuel self miner w self' w'. apply linked_mine_pending_transactions.
  - intros self [[Hg Hlink] Hall]%reachable_invariant. split; [done|]. split.
    + intros i cur prev Hi Hcur Hprev. destruct i as [|i]; [lia|].
      simpl in Hprev. rewrite Nat.sub_0_r in Hprev. by eapply Hlink.
    + intros w. by apply is_chain_valid_true.
Qed.

Lemma reachable_chain_linked_and_valid_witness :
  reachable (fst demo_three) /\
  length (IndianBlockchain.chain (fst demo_three)) = 3%nat /\
  linked (IndianBlockchain.chain (fst demo_three)) /\
  IndianBlockchain.is_chain_valid (fst demo_three) (snd demo_three)
  = Returns true (say BlockchainValid (snd demo_three)).
Proof.
  destruct reachable_chain_linked_and_valid as (Hinit & Hadd & Hmine & Hreach).
  assert (H0 : IndianBlockchain.init 10 (Some 2) demo_world
               = Returns (fst demo_fresh) (snd demo_fresh))
    by (vm_compute; reflexivity).
  set (mid := IndianBlockchain.Make (IndianBlockchain.chain (fst demo_fresh)) 2
                [Transaction.Make "A" "B" (binary64 100 0) (binary64 1700000032 0)]).
  set (wmid := say (TransactionAdded "A" "B" (binary64 100 0)) (tick (snd demo_fresh))).
  assert (H1 : IndianBlockchain.add_transaction (fst demo_fresh) "A" "B"
                 (binary64 100 0) (snd demo_fresh)
               = Returns mid wmid) by (vm_compute; reflexivity).
  assert (H2 : IndianBlockchain.add_transaction mid "B" "C" (binary64 50 0) wmid
               = Returns (fst demo_pending) (snd demo_pending))
    by (vm_compute; reflexivity).
  assert (H3 : IndianBlockchain.mine_pending_transactions 10 (fst demo_pending) "M"
                 (snd demo_pending)
               = Returns (fst demo_sealed) (snd demo_sealed))
    by (vm_compute; reflexivity).
  assert (H4 : IndianBlockchain.mine_pending_transactions 10 (fst demo_sealed) "M"
                 (snd demo_sealed)
               = Returns (fst demo_three) (snd demo_three))
    by (vm_compute; reflexivity).
  assert (Hr : reachable (fst demo_three)).
  { eapply reach_mine; [|exact H4]. eapply reach_mine; [|exact H3].
    eapply reach_add; [|exact H2]. eapply reach_add; [|exact H1].
    eapply reach_init. exact H0. }
  split; [exact Hr|]. split; [reflexivity|]. split.
  - apply (Hmine _ _ _ _ _ _ H4), (Hmine _ _ _ _ _ _ H3).
    apply (Hadd _ _ _ _ _ _ _ H2), (Hadd _ _ _ _ _ _ _ H1), (Hinit _ _ _ _ _ H0).
  - apply (Hreach _ Hr).
Defined.

(** ** The digest *)

Lemma length_append s1 s2 :
  String.length (s1 +:+ s2) = (String.length s1 + String.length s2)%nat.
Proof. induction s1 as [|c s1 IH]; simpl; [done|]. by rewrite IH. Qed.

Lemma string_forall_append p s1 s2 :
  string_forall p (s1 +:+ s2) = string_forall p s1 && string_forall p s2.
Proof.
  induction s1 as [|c s1 IH]; simpl; [done|]. by rewrite IH, andb_assoc.
Qed.

Lemma hex_digit_lower d : 0 <= d < 16 -> is_hex_lower (SHA256.hex_digit d) = true.
Proof.
  intros Hd.
  assert (d = 0 \/ d = 1 \/ d = 2 \/ d = 3 \/ d = 4 \/ d = 5 \/ d = 6 \/ d = 7 \/
          d = 8 \/ d = 9 \/ d = 10 \/ d = 11 \/ d = 12 \/ d = 13 \/ d = 14 \/ d = 15)
    as Hcases by lia.
  repeat (destruct Hcases as [->|Hcases]; [reflexivity|]). by subst.
Qed.

Lemma land_15_bounds x : 0 <= Z.land x 15 < 16.
Proof.
  change 15 with (Z.ones 4). rewrite Z.land_ones by lia.
  apply Z.mod_pos_bound. lia.
Qed.

Lemma hex_fixed_shape n x :
  String.length (SHA256.hex_fixed n x) = n /\
  string_forall is_hex_lower (SHA256.hex_fixed n x) = true.
Proof.
  induction n as [|n [IHl IHf]]; simpl; [done|].
  rewrite IHl, IHf, hex_digit_lower by apply land_15_bounds. done.
Qed.

Lemma hexdigest_shape msg :
  String.length (SHA256.hexdigest msg) = 64%nat /\
  string_forall is_hex_lower (SHA256.hexdigest msg) = true.
Proof.
  unfold SHA256.hexdigest, SHA256.digest_words.
  generalize (SHA256.blocks (length (SHA256.pad msg) / 64) SHA256.init (SHA256.pad msg)).
  intros s. cbn [fold_right].
  rewrite !length_append, !string_forall_append.
  repeat match goal with
         | |- context [SHA256.hex_fixed 8 ?x] =>
             let Hl := fresh in let Hf := fresh in
             destruct (hex_fixed_shape 8 x) as [Hl Hf];
             rewrite Hl, Hf; clear Hl Hf
         end.
  done.
Qed.

(** Sorting by key forgets the order of insertion. *)
Global Instance key_le_trans {V} : Transitive (@JsonDumps.key_le V).
Proof. intros a b c. unfold JsonDumps.key_le. apply transitivity. Qed.

Global Instance key_le_total {V} : Total (@JsonDumps.key_le V).
Proof. intros a b. unfold JsonDumps.key_le. apply total, _. Qed.

Lemma NoDup_keys_unique {V} (l : list (string * V)) k v1 v2 :
  NoDup (map fst l) -> (k, v1) ∈ l -> (k, v2) ∈ l -> v1 = v2.
Proof.
  induction l as [|[k' v'] l IH]; simpl; intros Hnd H1 H2.
  - by apply elem_of_nil in H1.
  - apply NoDup_cons in Hnd as [Hk Hnd].
    apply elem_of_cons in H1 as [H1|H1]; apply elem_of_cons in H2 as [H2|H2];
      simplify_eq; try done.
    + destruct Hk. apply list_elem_of_In, in_map_iff. exists (k', v2).
      split; [done|]. by apply list_elem_of_In.
    + destruct Hk. apply list_elem_of_In, in_map_iff. exists (k', v1).
      split; [done|]. by apply list_elem_of_In.
    + by apply IH.
Qed.

Lemma sort_items_permutation {V} (l l' : list (string * V)) :
  NoDup (map fst l) -> l ≡ₚ l' ->
  JsonDumps.sort_items l = JsonDumps.sort_items l'.
Proof.
  intros Hnd Hperm. unfold JsonDumps.sort_items.
  apply (Sorted_unique_strong JsonDumps.key_le).
  - intros [k1 v1] [k2 v2] H1 H2 Hle1 Hle2.
    rewrite merge_sort_Permutation in H1, H2. rewrite <- Hperm in H2.
    unfold JsonDumps.key_le in Hle1, Hle2. simpl in *.
    assert (k1 = k2) as -> by (by apply (anti_symm String.le)).
    f_equal. by eapply NoDup_keys_unique.
  - apply Sorted_merge_sort, _.
  - apply Sorted_merge_sort, _.
  - by rewrite !merge_sort_Permutation.
Qed.

Lemma dumps_dict_permutation items items' :
  NoDup (map fst items) -> items ≡ₚ items' ->
  JsonDumps.dumps (Json.Dict items) = JsonDumps.dumps (Json.Dict items').
Proof.
  intros Hnd Hperm. simpl.
  rewrite (sort_items_permutation
             (map (fun kv => (fst kv, JsonDumps.dumps (snd kv))) items)
             (map (fun kv => (fst kv, JsonDumps.dumps (snd kv))) items')); [done| |].
  - rewrite map_map. simpl. done.
  - by apply Permutation_map.
Qed.

Lemma block_content_keys b : NoDup (map fst (Block.block_content b)).
Proof.
  simpl. by apply (bool_decide_unpack _).
Qed.

(** C8.  [calculate_hash] is a function of the index, the timestamp, the
    dictionaries of the transactions, the previous hash and the nonce, and
    of nothing else; its value is a string of 64 characters among
    [0-9a-f]; and since [json.dumps] sorts the items of a dictionary by
    key, entering the attributes in another order gives the same JSON
    text and the same digest. *)
Theorem calculate_hash_deterministic :
  (forall b b',
     Block.index b = Block.index b' ->
     Block.timestamp b = Block.timestamp b' ->
     map Transaction.to_dict (Block.transactions b)
     = map Transaction.to_dict (Block.transactions b') ->
     Block.previous_hash b = Block.previous_hash b' ->
     Block.nonce b = Block.nonce b' ->
     Block.calculate_hash b = Block.calculate_hash b') /\
  (forall b,
     String.length (Block.calculate_hash b) = 64%nat /\
     string_forall is_hex_lower (Block.calculate_hash b) = true) /\
  (forall items items',
     NoDup (map fst items) -> items ≡ₚ items' ->
     JsonDumps.dumps (Json.Dict items) = JsonDumps.dumps (Json.Dict items')) /\
  (forall b items,
     items ≡ₚ Block.block_content b ->
     SHA256.hexdigest (Py.str_encode (JsonDumps.dumps (Json.Dict items)))
     = Block.calculate_hash b).
Proof.
  split; [|split; [|split]].
  - intros b b' Hi Ht Htx Hp Hn.
    unfold Block.calculate_hash, Block.block_string, Block.block_content.
    by rewrite Hi, Ht, Htx, Hp, Hn.
  - intros b. apply hexdigest_shape.
  - apply dumps_dict_permutation.
  - intros b items Hperm. unfold Block.calculate_hash, Block.block_string.
    do 2 f_equal. symmetry. apply dumps_dict_permutation; [|done].
    apply block_content_keys.
Qed.

Lemma calculate_hash_deterministic_witness :
  demo_block1_reordered ≡ₚ Block.block_content demo_block1 /\
  demo_block1_reordered <> Block.block_content demo_block1 /\
  SHA256.hexdigest (Py.str_encode (JsonDumps.dumps (Json.Dict demo_block1_reordered)))
  = Block.calculate_hash demo_block1 /\
  Block.calculate_hash demo_block1_tampered
  = Block.calculate_hash (Block.set_hash demo_block1_tampered zeros64) /\
  Block.calculate_hash demo_block1
  = "00c62bcf07b6adb3a6c870b09bb43242e272dece4e68b99c878661dc13f0ae1b".
Proof.
  destruct calculate_hash_deterministic as (Hfields & _ & _ & Horder).
  assert (Hperm : demo_block1_reordered ≡ₚ Block.block_content demo_block1).
  { unfold demo_block1_reordered, Block.block_content. symmetry.
    apply (Permutation_cons_app [_; _] [_; _]).
    apply (Permutation_cons_app [_; _; _] []).
    apply (Permutation_cons_app [_] [_]).
    apply (Permutation_cons_app [_] []).
    reflexivity. }
  split; [exact Hperm|]. split; [intros H; discriminate H|].
  split; [exact (Horder demo_block1 demo_block1_reordered Hperm)|].
  split; [by apply Hfields|]. vm_compute. reflexivity.
Defined.

(** ** Reading the JSON text back *)

Lemma string_forall_impl (p q : ascii -> bool) s :
  (forall c, p c = true -> q c = true) ->
  string_forall p s = true -> string_forall q s = true.
Proof.
  intros Hpq. induction s as [|c s IH]; simpl; [done|].
  intros [Hc Hs]%andb_true_iff. by rewrite (Hpq c Hc), IH.
Qed.

Lemma string_forall_substring p n m s :
  string_forall p s = true -> string_forall p (String.substring n m s) = true.
Proof.
  revert n m. induction s as [|c s IH]; intros n m; simpl.
  - by destruct n, m.
  - intros [Hc Hs]%andb_true_iff. destruct n as [|n].
    + destruct m as [|m]; simpl; [done|]. by rewrite Hc, IH.
    + by apply IH.
Qed.

Lemma string_forall_str_mul_zero p n :
  p "0"%char = true -> string_forall p (Py.str_mul "0" n) = true.
Proof.
  intros Hp. unfold Py.str_mul. induction (Z.to_nat n) as [|k IH]; [done|].
  change (string_forall p
            (String "0" (fold_right String.append EmptyString (repeat "0" k))) = true).
  simpl. by rewrite Hp.
Qed.

(** Two texts that agree after a run of characters of one class and the
    same delimiter outside that class agree on the run and on the rest. *)
Lemma append_delimited p s s' c r r' :
  string_forall p s = true -> string_forall p s' = true -> p c = false ->
  s +:+ String c r = s' +:+ String c r' -> s = s' /\ r = r'.
Proof.
  intros Hs Hs' Hc. revert s' Hs'.
  induction s as [|a s IH]; intros [|a' s'] Hs'; simpl in *; intros H.
  - by simplify_eq.
  - simplify_eq. apply andb_true_iff in Hs' as [? _]. congruence.
  - simplify_eq. apply andb_true_iff in Hs as [? _]. congruence.
  - apply andb_true_iff in Hs as [_ Hs]. apply andb_true_iff in Hs' as [_ Hs'].
    injection H as -> H. destruct (IH Hs s' Hs' H) as [-> ->]. done.
Qed.

(** *** Integers *)

Lemma string_of_uint_chars d :
  string_forall is_int_char (NilEmpty.string_of_uint d) = true.
Proof. induction d; simpl; by rewrite ?IHd. Qed.

Lemma int_repr_chars n : string_forall is_int_char (Py.int_repr n) = true.
Proof.
  unfold Py.int_repr, NilZero.string_of_int, NilZero.string_of_uint.
  destruct (Z.to_int n) as [d|d]; destruct d; simpl; try done;
    apply string_of_uint_chars.
Qed.

Lemma to_int_not_nil n : Z.to_int n <> Decimal.Pos Decimal.Nil /\ Z.to_int n <> Decimal.Neg Decimal.Nil.
Proof.
  split; intros H; pose proof (f_equal Z.of_int H) as H';
    rewrite DecimalZ.of_to in H'; simpl in H'; subst n; discriminate H.
Qed.

Lemma int_repr_inj n n' : Py.int_repr n = Py.int_repr n' -> n = n'.
Proof.
  unfold Py.int_repr. intros H%(f_equal NilZero.int_of_string).
  destruct (to_int_not_nil n), (to_int_not_nil n').
  rewrite !NilZero.isi in H by done. apply DecimalZ.to_int_inj. congruence.
Qed.

(** *** Strings *)

Lemma append_assoc s1 s2 s3 : (s1 +:+ s2) +:+ s3 = s1 +:+ (s2 +:+ s3).
Proof.
  induction s1 as [|c s1 IH]; [done|].
  change (String c ((s1 +:+ s2) +:+ s3) = String c (s1 +:+ (s2 +:+ s3))).
  by rewrite IH.
Qed.

Lemma append_cons c s r : String c s +:+ r = String c (s +:+ r).
Proof. reflexivity. Qed.

Lemma append_nil r : EmptyString +:+ r = r.
Proof. reflexivity. Qed.

Lemma unescape_head_escape_char c r :
  unescape_head (Json.escape_char c +:+ r) = Some (c, r).
Proof. destruct c as [[] [] [] [] [] [] [] []]; reflexivity. Qed.

Lemma escape_delimited s s' r r' :
  Json.escape s +:+ String Json.dquote r = Json.escape s' +:+ String Json.dquote r' ->
  s = s' /\ r = r'.
Proof.
  revert s'. induction s as [|c s IH]; intros [|c' s']; simpl;
    rewrite ?append_assoc; intros H.
  - by injection H as ->.
  - apply (f_equal unescape_head) in H.
    rewrite unescape_head_escape_char in H. discriminate H.
  - apply (f_equal unescape_head) in H.
    rewrite unescape_head_escape_char in H. discriminate H.
  - apply (f_equal unescape_head) in H.
    rewrite !unescape_head_escape_char in H. injection H as -> H.
    by destruct (IH _ H) as [-> ->].
Qed.

Lemma encode_basestring_delimited s s' r r' :
  Json.encode_basestring_ascii s +:+ r = Json.encode_basestring_ascii s' +:+ r' ->
  s = s' /\ r = r'.
Proof.
  unfold Json.encode_basestring_ascii. rewrite !append_cons, !append_assoc, !append_cons.
  intros H. injection H as H. by apply escape_delimited.
Qed.

(** *** Floats *)

Lemma int_char_float_char c : is_int_char c = true -> is_float_char c = true.
Proof. unfold is_float_char. by intros ->. Qed.

Lemma exponent_repr_chars x : string_forall is_float_char (Py.exponent_repr x) = true.
Proof.
  unfold Py.exponent_repr. rewrite !string_forall_append.
  rewrite (string_forall_impl _ _ _ int_char_float_char (int_repr_chars _)).
  by destruct (x <? 0), (Z.abs x <? 10).
Qed.

Lemma format_short_chars ds dp :
  string_forall is_int_char ds = true ->
  string_forall is_float_char (Py.format_short ds dp) = true.
Proof.
  intros Hds%(string_forall_impl _ _ _ int_char_float_char).
  unfold Py.format_short.
  repeat match goal with |- context [if ?b then _ else _] => destruct b end;
    rewrite ?string_forall_append, ?exponent_repr_chars,
      ?string_forall_substring, ?string_forall_str_mul_zero, ?Hds by done; done.
Qed.

Lemma digits_decpt_chars m e :
  string_forall is_int_char (fst (Py.digits_decpt m e)) = true.
Proof.
  unfold Py.digits_decpt.
  destruct (Py.normalize _ _ _) as [m' e'].
  destruct (Py.shortest _ _ _ _ _) as [d k].
  destruct (Py.strip_zeros _ _ _) as [d' k']. simpl. apply int_repr_chars.
Qed.

Lemma float_repr_chars x : string_forall is_float_char (Py.float_repr x) = true.
Proof.
  destruct x as [s|s| |s m e]; [by destruct s..|reflexivity|].
  unfold Py.float_repr.
  pose proof (digits_decpt_chars (Z.pos m) e) as Hds.
  destruct (Py.digits_decpt (Z.pos m) e) as [ds dp]. simpl in Hds.
  rewrite string_forall_append, (format_short_chars _ _ Hds). by destruct s.
Qed.

Lemma floatstr_chars x : string_forall is_float_char (JsonDumps.floatstr x) = true.
Proof.
  destruct x as [s|s| |s m e];
    [apply float_repr_chars|by destruct s|reflexivity|apply float_repr_chars].
Qed.

(** *** Transactions and blocks *)

Lemma sort_transaction_items {V} (a b c d : V) :
  JsonDumps.sort_items [("sender", a); ("recipient", b); ("amount", c); ("timestamp", d)]
  = [("amount", c); ("recipient", b); ("sender", a); ("timestamp", d)].
Proof. reflexivity. Qed.

Lemma sort_block_items {V} (a b c d e : V) :
  JsonDumps.sort_items
    [("index", a); ("timestamp", b); ("transactions", c); ("previous_hash", d); ("nonce", e)]
  = [("index", a); ("nonce", e); ("previous_hash", d); ("timestamp", b); ("transactions", c)].
Proof. reflexivity. Qed.

(** The text of a transaction, then whatever follows it. *)
Lemma transaction_text tx r :
  JsonDumps.dumps (Transaction.to_dict tx) +:+ r
  = "{" +:+ Json.encode_basestring_ascii "amount" +:+ ": "
        +:+ JsonDumps.floatstr (Transaction.amount tx) +:+ ", "
        +:+ Json.encode_basestring_ascii "recipient" +:+ ": "
        +:+ Json.encode_basestring_ascii (Transaction.recipient tx) +:+ ", "
        +:+ Json.encode_basestring_ascii "sender" +:+ ": "
        +:+ Json.encode_basestring_ascii (Transaction.sender tx) +:+ ", "
        +:+ Json.encode_basestring_ascii "timestamp" +:+ ": "
        +:+ JsonDumps.floatstr (Transaction.timestamp tx) +:+ "}" +:+ r.
Proof.
  unfold Transaction.to_dict. cbn [JsonDumps.dumps map fst snd].
  rewrite sort_transaction_items.
  cbn [map Py.join]. unfold JsonDumps.render_item. cbn [fst snd].
  by rewrite !append_assoc.
Qed.

Lemma string_cons_inj c s s' : String c s = String c s' -> s = s'.
Proof. by intros [= ->]. Qed.

Ltac peel H :=
  first
    [ match type of H with String _ _ = String _ _ => apply string_cons_inj in H end
    | apply (inj (String.append _)) in H
    | apply encode_basestring_delimited in H as [_ H] ].

Lemma float_delimited x x' c r r' :
  is_float_char c = false ->
  JsonDumps.floatstr x +:+ String c r = JsonDumps.floatstr x' +:+ String c r' ->
  JsonDumps.floatstr x = JsonDumps.floatstr x' /\ r = r'.
Proof. intros Hc. apply (append_delimited is_float_char); auto using floatstr_chars. Qed.

Lemma int_delimited n n' c r r' :
  is_int_char c = false ->
  Py.int_repr n +:+ String c r = Py.int_repr n' +:+ String c r' ->
  n = n' /\ r = r'.
Proof.
  intros Hc H. apply (append_delimited is_int_char) in H as [H ->];
    auto using int_repr_chars. split; [by apply int_repr_inj|done].
Qed.

Lemma transaction_delimited tx tx' r r' :
  printed_apart (floats_of_transaction tx) (floats_of_transaction tx') ->
  JsonDumps.dumps (Transaction.to_dict tx) +:+ r
  = JsonDumps.dumps (Transaction.to_dict tx') +:+ r' ->
  tx = tx' /\ r = r'.
Proof.
  intros Hfl. rewrite !transaction_text. intros H.
  do 3 peel H. apply float_delimited in H as [Ha H]; [|done].
  do 3 peel H. apply encode_basestring_delimited in H as [Hr H].
  do 3 peel H. apply encode_basestring_delimited in H as [Hs H].
  do 3 peel H. apply float_delimited in H as [Ht H]; [|done].
  apply Hfl in Ha; [|apply elem_of_cons; by left..].
  apply Hfl in Ht; [|apply elem_of_cons; right; apply elem_of_cons; by left..].
  destruct tx, tx'; simpl in *. by subst.
Qed.

(** The text of a list of transactions, then whatever follows its closing
    bracket. *)
Lemma join_cons x xs r :
  Py.join ", " (x :: xs) +:+ r
  = x +:+ match xs with [] => r | _ => ", " +:+ Py.join ", " xs +:+ r end.
Proof. destruct xs; [done|]. cbn [Py.join]. by rewrite !append_assoc. Qed.

Lemma transactions_delimited txs txs' r r' :
  printed_apart (flat_map floats_of_transaction txs)
                (flat_map floats_of_transaction txs') ->
  Py.join ", " (map JsonDumps.dumps (map Transaction.to_dict txs)) +:+ String "]" r
  = Py.join ", " (map JsonDumps.dumps (map Transaction.to_dict txs')) +:+ String "]" r' ->
  txs = txs' /\ r = r'.
Proof.
  revert txs'. induction txs as [|tx txs IH]; intros [|tx' txs'] Hfl.
  - cbn. by intros [= ->].
  - cbn [map]. rewrite join_cons, transaction_text. cbn. discriminate.
  - cbn [map]. rewrite join_cons, transaction_text. cbn. discriminate.
  - cbn [map]. rewrite !join_cons. intros H.
    apply transaction_delimited in H as [-> H].
    2:{ intros x y Hx Hy. apply Hfl; cbn [flat_map]; apply elem_of_app; by left. }
    assert (Hfl' : printed_apart (flat_map floats_of_transaction txs)
                     (flat_map floats_of_transaction txs')).
    { intros x y Hx Hy. apply Hfl; cbn [flat_map]; apply elem_of_app; by right. }
    destruct txs as [|t2 txs], txs' as [|t2' txs'].
    + by injection H as ->.
    + cbn in H. discriminate H.
    + cbn in H. discriminate H.
    + apply (inj (String.append _)) in H.
      by destruct (IH _ Hfl' H) as [-> ->].
Qed.

(** The text of a block. *)
Lemma block_text b :
  Block.block_string b
  = "{" +:+ Json.encode_basestring_ascii "index" +:+ ": "
        +:+ Py.int_repr (Block.index b) +:+ ", "
        +:+ Json.encode_basestring_ascii "nonce" +:+ ": "
        +:+ Py.int_repr (Block.nonce b) +:+ ", "
        +:+ Json.encode_basestring_ascii "previous_hash" +:+ ": "
        +:+ Json.encode_basestring_ascii (Block.previous_hash b) +:+ ", "
        +:+ Json.encode_basestring_ascii "timestamp" +:+ ": "
        +:+ JsonDumps.floatstr (Block.timestamp b) +:+ ", "
        +:+ Json.encode_basestring_ascii "transactions" +:+ ": "
        +:+ "["
        +:+ Py.join ", " (map JsonDumps.dumps (map Transaction.to_dict (Block.transactions b)))
        +:+ "]}".
Proof.
  unfold Block.block_string, Block.block_content.
  cbn [JsonDumps.dumps map fst snd]. rewrite sort_block_items.
  cbn [map Py.join]. unfold JsonDumps.render_item. cbn [fst snd].
  by rewrite !append_assoc.
Qed.

(** The text of a block determines the five attributes it is made of. *)
Lemma block_string_inj b b' :
  printed_apart (floats_of_block b) (floats_of_block b') ->
  Block.block_string b = Block.block_string b' ->
  Block.index b = Block.index b' /\
  Block.timestamp b = Block.timestamp b' /\
  Block.transactions b = Block.transactions b' /\
  Block.previous_hash b = Block.previous_hash b' /\
  Block.nonce b = Block.nonce b'.
Proof.
  intros Hfl. rewrite !block_text. intros H.
  do 3 peel H. apply int_delimited in H as [Hi H]; [|done].
  do 3 peel H. apply int_delimited in H as [Hn H]; [|done].
  do 3 peel H. apply encode_basestring_delimited in H as [Hp H].
  do 3 peel H. apply float_delimited in H as [Ht H]; [|done].
  do 4 peel H. apply transactions_delimited in H as [Htx _].
  2:{ intros x y Hx Hy. apply Hfl; apply elem_of_cons; by right. }
  apply Hfl in Ht; [|apply elem_of_cons; by left..].
  done.
Qed.

Lemma printed_apartb_spec xs ys : printed_apartb xs ys = true -> printed_apart xs ys.
Proof.
  unfold printed_apartb. rewrite forallb_forall. intros H x y Hx Hy Heq.
  specialize (H x (proj1 (list_elem_of_In _ _) Hx)). rewrite forallb_forall in H.
  specialize (H y (proj1 (list_elem_of_In _ _) Hy)).
  rewrite (proj2 (String.eqb_eq _ _) Heq) in H. simpl in H.
  by apply bool_decide_eq_true in H.
Qed.

(** A change of one attribute among the five is a change of the text. *)
Lemma tampered_text b b' :
  tampered b b' ->
  Block.hash b' = Block.hash b ->
  printed_apart (floats_of_block b') (floats_of_block b) ->
  Block.block_string b' <> Block.block_string b.
Proof.
  intros Ht Hh Hfl Htext.
  destruct (block_string_inj _ _ Hfl Htext) as (Hi & Hts & Htx & Hp & Hn).
  destruct Ht as [v Hv|v Hv|v Hv|v Hv|v Hv|v Hv]; simpl in *; congruence.
Qed.

(** ** Tampering *)

Lemma tampered_hash_mismatch b b' :
  hash_ok b = true ->
  tampered b b' ->
  (Block.hash b' = Block.hash b ->
   Block.calculate_hash b' <> Block.calculate_hash b) ->
  hash_ok b' = false.
Proof.
  unfold hash_ok. intros Hok%String.eqb_eq Ht Hdigest.
  apply String.eqb_neq.
  destruct Ht as [v Hv|v Hv|v Hv|v Hv|v Hv|v Hv]; simpl in *;
    try (rewrite Hok; intros Heq; by apply Hdigest).
  change (Block.calculate_hash _) with (Block.calculate_hash b). congruence.
Qed.

Lemma ok_at_insert_before c d i j b' :
  (j < i)%nat -> ok_at c d j -> ok_at (<[i:=b']> c) d j.
Proof.
  intros Hj (cur & prev & Hc & Hp & Hok). exists cur, prev.
  rewrite !list_lookup_insert_ne by lia. done.
Qed.

Lemma is_chain_valid_all_ok self w w' :
  IndianBlockchain.is_chain_valid self w = Returns true w' ->
  forall i, (1 <= i < length (IndianBlockchain.chain self))%nat ->
    ok_at (IndianBlockchain.chain self) (IndianBlockchain.difficulty self) i.
Proof.
  intros Hrun. destruct (is_chain_valid_cases self w) as [[Hall _]|H]; [done|].
  destruct H as (i & cur & prev & _ & _ & _ & _ & _ & Hfalse). congruence.
Qed.

(** ** Two contents, one digest *)












(** ** Difficulties *)

Lemma length_str_mul_zero_Z d : String.length (Py.str_mul "0" d) = Z.to_nat d.
Proof.
  destruct (Z.le_gt_cases 0 d) as [Hd|Hd].
  - rewrite <- (Z2Nat.id d Hd) at 1. apply length_str_mul_zero.
  - unfold Py.str_mul. by replace (Z.to_nat d) with 0%nat by lia.
Qed.

Lemma length_slice_to h d :
  String.length (Py.slice_to h d)
  = Z.to_nat (if d <? 0 then Z.max (Z.of_nat (String.length h) + d) 0
              else Z.min d (Z.of_nat (String.length h))).
Proof.
  unfold Py.slice_to. apply length_substring_0.
  destruct (d <? 0) eqn:Hd; lia.
Qed.

(** The target is longer than the hash. *)
Lemma meets_target_long d h :
  Z.of_nat (String.length h) < d -> meets_target d h = false.
Proof.
  intros Hlen. unfold meets_target. apply String.eqb_neq.
  intros H%(f_equal String.length).
  rewrite length_slice_to, length_str_mul_zero_Z in H.
  destruct (Z.ltb_spec d 0); lia.
Qed.

(** The target is empty and the slice is not. *)
Lemma meets_target_negative d h :
  d < 0 -> - d < Z.of_nat (String.length h) -> meets_target d h = false.
Proof.
  intros Hd Hlen. unfold meets_target. apply String.eqb_neq.
  intros H%(f_equal String.length).
  rewrite length_slice_to, length_str_mul_zero_Z in H.
  destruct (Z.ltb_spec d 0); lia.
Qed.

Lemma meets_target_digest d msg :
  unmeetable d -> meets_target d (SHA256.hexdigest msg) = false.
Proof.
  destruct (hexdigest_shape msg) as [Hlen _].
  intros [Hd|Hd]; [apply meets_target_long | apply meets_target_negative]; lia.
Qed.

(** A loop whose test never passes is still running whatever the fuel. *)
Lemma mine_loop_never b d :
  (forall k, meets_target d (Block.hash (Nat.iter k mine_step b)) = false) ->
  forall fuel w, Block.mine_loop fuel b d (Py.str_mul "0" d) w = OutOfFuel.
Proof.
  intros Hnever fuel. revert b Hnever.
  induction fuel as [|fuel IH]; intros b Hnever w; simpl;
    fold (meets_target d (Block.hash b));
    pose proof (Hnever 0%nat) as H0; simpl in H0; rewrite H0; simpl; [done|].
  apply IH. intros k. specialize (Hnever (S k)).
  by rewrite Nat.iter_succ_r in Hnever.
Qed.

Lemma mine_steps_unmeetable d b k :
  unmeetable d ->
  meets_target d (Block.hash b) = false ->
  meets_target d (Block.hash (Nat.iter k mine_step b)) = false.
Proof.
  intros Hd Hb. destruct k as [|k]; [done|]. simpl.
  apply meets_target_digest, Hd.
Qed.

(** X1.  [mine_block] never returns a block when the difficulty asks for
    more than 64 zeros, or is a negative count above -64: the digests it
    computes have 64 characters, so the slice it compares is never the
    target, and whatever bound is put on the iterations of the loop the
    call has not returned.  (A count too large for ['0' * difficulty] ends
    the call with an exception, which is no return either.)  The stored
    hash the block comes with must not happen to pass the test, which no
    hash of at most 64 characters does in the first case and none of more
    than [- d] characters in the second. *)
Theorem mine_block_never_returns b d :
  (64 < d /\ (String.length (Block.hash b) <= 64)%nat) \/
  (-64 < d < 0 /\ - d < Z.of_nat (String.length (Block.hash b))) ->
  forall fuel w b' w', Block.mine_block fuel b d w <> Returns b' w'.
Proof.
  intros Hd fuel w b' w'. unfold Block.mine_block, bind.
  rewrite mine_loop_never; [discriminate|]. intros k.
  apply mine_steps_unmeetable.
  - destruct Hd as [[? _]|[? _]]; [by left | by right].
  - destruct Hd as [[? ?]|[? ?]];
      [apply meets_target_long | apply meets_target_negative]; lia.
Qed.

Lemma mine_block_never_returns_witness :
  (64 < 65 /\ (String.length (Block.hash demo_unmined) <= 64)%nat) /\
  (forall b' w', Block.mine_block 1000 demo_unmined 65 demo_world <> Returns b' w') /\
  (-64 < -3 < 0 /\ - -3 < Z.of_nat (String.length (Block.hash demo_unmined))) /\
  (forall b' w', Block.mine_block 1000 demo_unmined (-3) demo_world <> Returns b' w').
Proof.
  assert (H : 64 < 65 /\ (String.length (Block.hash demo_unmined) <= 64)%nat)
    by (split; [lia | vm_compute; lia]).
  assert (H' : -64 < -3 < 0 /\
               - -3 < Z.of_nat (String.length (Block.hash demo_unmined)))
    by (split; [lia | vm_compute; reflexivity]).
  split; [exact H|]. split.
  - exact (mine_block_never_returns demo_unmined 65 (or_introl H) 1000%nat demo_world).
  - split; [exact H'|].
    exact (mine_block_never_returns demo_unmined (-3) (or_intror H') 1000%nat demo_world).
Defined.

(** X2.  The constructor never returns a chain for a difficulty of more
    than 64, or a negative one above -64: the genesis block it builds
    carries a digest of 64 characters, which cannot meet the target, so
    mining it does not return. *)
Theorem init_never_returns d :
  64 < d \/ -64 < d < 0 ->
  forall fuel w self w', IndianBlockchain.init fuel (Some d) w <> Returns self w'.
Proof.
  intros Hd fuel w self w'.
  unfold IndianBlockchain.init, IndianBlockchain.create_genesis_block.
  rewrite (bind_of_returns _ _ _ _ _ (block_init_returns _ _ _ _)).
  unfold Block.mine_block, bind. simpl IndianBlockchain.difficulty.
  rewrite mine_loop_never; [discriminate|]. intros k.
  apply mine_steps_unmeetable; [done|].
  apply meets_target_digest, Hd.
Qed.

Lemma init_never_returns_witness :
  (forall self w', IndianBlockchain.init 500 (Some 65) demo_world <> Returns self w') /\
  (forall self w', IndianBlockchain.init 500 (Some (-1)) demo_world <> Returns self w').
Proof.
  split.
  - apply (init_never_returns 65). lia.
  - apply (init_never_returns (-1)). lia.
Defined.

(** X3.  Mining is idempotent: a block that [mine_block] has returned is
    returned as it is by any further call at the same difficulty, which
    prints the same nonce again and needs no fuel. *)
Theorem mine_block_idempotent fuel b d w b' w' :
  Block.mine_block fuel b d w = Returns b' w' ->
  forall fuel2 w2,
    Block.mine_block fuel2 b' d w2
    = Returns b' (say (BlockMined (Block.nonce b')) w2).
Proof.
  intros (Hmeet & _)%mine_block_fields fuel2 w2. by apply mine_block_met.
Qed.

Lemma mine_block_idempotent_witness :
  Block.mine_block 10 demo_unmined 2 demo_world
  = Returns (Nat.iter 4 mine_step demo_unmined) (say (BlockMined 4) demo_world) /\
  Block.mine_block 0 (Nat.iter 4 mine_step demo_unmined) 2 demo_world
  = Returns (Nat.iter 4 mine_step demo_unmined) (say (BlockMined 4) demo_world).
Proof.
  assert (Hrun : Block.mine_block 10 demo_unmined 2 demo_world
                 = Returns (Nat.iter 4 mine_step demo_unmined)
                           (say (BlockMined 4) demo_world))
    by (vm_compute; reflexivity).
  split; [exact Hrun|].
  exact (mine_block_idempotent _ _ _ _ _ _ Hrun 0%nat demo_world).
Defined.

(** X4.  At difficulty 0 nothing is searched: [mine_block] returns any block
    as it is, and the constructor returns a chain whose genesis block has
    nonce 0 after two lines of output. *)
Theorem zero_difficulty_mines_nothing :
  (forall fuel b w,
     Block.mine_block fuel b 0 w = Returns b (say (BlockMined (Block.nonce b)) w)) /\
  (forall fuel w,
     exists g,
       IndianBlockchain.init fuel (Some 0) w
       = Returns (IndianBlockchain.Make [g] 0 [])
           (say GenesisCreated (say (BlockMined 0) (tick w))) /\
       Block.nonce g = 0 /\ Block.hash g = Block.calculate_hash g).
Proof.
  split.
  - intros fuel b w. apply mine_block_met, meets_target_zero.
  - intros fuel w. eexists. split; [|split].
    + unfold IndianBlockchain.init, IndianBlockchain.create_genesis_block.
      rewrite (bind_of_returns _ _ _ _ _ (block_init_returns _ _ _ _)).
      simpl IndianBlockchain.difficulty.
      rewrite (bind_of_returns _ _ _ _ _ (mine_block_met _ _ _ _ (meets_target_zero _))).
      reflexivity.
    + reflexivity.
    + reflexivity.
Qed.

(** ** The last block *)

(** X5.  [get_latest_block] raises [IndexError] on an empty chain and
    returns the last block of any other, without any effect; and
    [mine_pending_transactions] on an empty chain raises [IndexError] too,
    after the reward transaction has been created and announced and before
    any block is built. *)
Theorem empty_chain_raises :
  (forall d pool w,
     IndianBlockchain.get_latest_block (IndianBlockchain.Make [] d pool) w
     = Raises IndexError w) /\
  (forall blocks b d pool w,
     IndianBlockchain.get_latest_block (IndianBlockchain.Make (blocks ++ [b]) d pool) w
     = Returns b w) /\
  (forall fuel d pool miner w,
     IndianBlockchain.mine_pending_transactions fuel
       (IndianBlockchain.Make [] d pool) miner w
     = Raises IndexError
         (say (TransactionAdded "Network" miner IndianBlockchain.reward) (tick w))).
Proof.
  split; [done|]. split.
  - intros blocks b d pool w. unfold IndianBlockchain.get_latest_block. simpl.
    by rewrite last_snoc.
  - intros fuel d pool miner w. unfold IndianBlockchain.mine_pending_transactions.
    by rewrite (bind_of_returns _ _ _ _ _ (add_transaction_returns _ _ _ _ _)).
Qed.

(** ** Termination of mining *)

Lemma mine_loop_first k b d w :
  meets_target d (Block.hash (Nat.iter k mine_step b)) = true ->
  (forall j, (j < k)%nat -> meets_target d (Block.hash (Nat.iter j mine_step b)) = false) ->
  forall fuel, (k <= fuel)%nat ->
  Block.mine_loop fuel b d (Py.str_mul "0" d) w = Returns (Nat.iter k mine_step b) w.
Proof.
  revert b. induction k as [|k IH]; intros b Hk Hmin fuel Hfuel.
  - destruct fuel; simpl in *; fold (meets_target d (Block.hash b)); by rewrite Hk.
  - destruct fuel as [|fuel]; [lia|].
    rewrite Nat.iter_succ_r in Hk. rewrite Nat.iter_succ_r.
    pose proof (Hmin 0%nat ltac:(lia)) as H0. simpl in H0.
    cbn [Block.mine_loop]. fold (meets_target d (Block.hash b)). rewrite H0.
    cbn [negb]. apply (IH (mine_step b)); [done| |lia].
    intros j Hj. specialize (Hmin (S j) ltac:(lia)).
    by rewrite Nat.iter_succ_r in Hmin.
Qed.

(** The first number of turns within [k] after which the test passes. *)
Lemma first_meeting d b k :
  meets_target d (Block.hash (Nat.iter k mine_step b)) = true ->
  exists j, (j <= k)%nat /\
    meets_target d (Block.hash (Nat.iter j mine_step b)) = true /\
    forall i, (i < j)%nat -> meets_target d (Block.hash (Nat.iter i mine_step b)) = false.
Proof.
  revert b. induction k as [|k IH]; intros b Hk.
  - exists 0%nat. split; [lia|]. split; [done|]. intros i Hi. lia.
  - destruct (meets_target d (Block.hash b)) eqn:Hb.
    + exists 0%nat. split; [lia|]. split; [done|]. intros i Hi. lia.
    + rewrite Nat.iter_succ_r in Hk. destruct (IH _ Hk) as (j & Hj & Hmeet & Hmin).
      exists (S j). split; [lia|]. rewrite Nat.iter_succ_r. split; [done|].
      intros [|i] Hi; [done|]. rewrite Nat.iter_succ_r. apply Hmin. lia.
Qed.

(** X6.  [mine_block] returns whenever some nonce from the current one on
    gives a hash that meets the target: it stops at the first such nonce,
    prints it, and its result is the same for every amount of fuel that
    reaches a nonce that works. *)
Theorem mine_block_terminates k b d :
  meets_target d (Block.hash (Nat.iter k mine_step b)) = true ->
  exists j, (j <= k)%nat /\
    (forall i, (i < j)%nat ->
       meets_target d (Block.hash (Nat.iter i mine_step b)) = false) /\
    forall fuel w, (k <= fuel)%nat ->
      Block.mine_block fuel b d w
      = Returns (Nat.iter j mine_step b)
          (say (BlockMined (Block.nonce b + Z.of_nat j)) w).
Proof.
  intros (j & Hj & Hmeet & Hmin)%first_meeting. exists j.
  split; [done|]. split; [done|]. intros fuel w Hfuel.
  unfold Block.mine_block.
  rewrite (bind_of_returns _ _ _ _ _
             (mine_loop_first j b d w Hmeet Hmin fuel ltac:(lia))).
  destruct (mine_steps_fields j b) as (_ & _ & _ & _ & Hn).
  unfold bind, print, ret, say. simpl in Hn. by rewrite Hn.
Qed.

Lemma mine_block_terminates_witness :
  meets_target 2 (Block.hash (Nat.iter 6 mine_step demo_unmined)) = false /\
  meets_target 2 (Block.hash (Nat.iter 4 mine_step demo_unmined)) = true /\
  exists j, (j <= 4)%nat /\
    forall fuel w, (4 <= fuel)%nat ->
      Block.mine_block fuel demo_unmined 2 w
      = Returns (Nat.iter j mine_step demo_unmined)
          (say (BlockMined (Block.nonce demo_unmined + Z.of_nat j)) w).
Proof.
  assert (H : meets_target 2 (Block.hash (Nat.iter 4 mine_step demo_unmined)) = true)
    by (vm_compute; reflexivity).
  split; [vm_compute; reflexivity|]. split; [exact H|].
  destruct (mine_block_terminates 4 demo_unmined 2 H) as (j & Hj & _ & Hrun).
  exists j. split; [exact Hj | exact Hrun].
Defined.

(** ** What the operations add *)

Lemma flat_map_snoc {A B} (f : A -> list B) l x :
  flat_map f (l ++ [x]) = flat_map f l ++ f x.
Proof. rewrite flat_map_app. simpl. by rewrite app_nil_r. Qed.

(** X7.  The transactions of a chain, those of its blocks in order followed
    by the pool, only ever grow at the end: [add_transaction] appends the
    new transaction, [mine_pending_transactions] appends the reward, and
    nothing is dropped, repeated or reordered when the pool becomes a
    block. *)
Theorem ledger_append_only :
  (forall self sender recipient amount w self' w',
     IndianBlockchain.add_transaction self sender recipient amount w
     = Returns self' w' ->
     ledger self'
     = ledger self ++ [Transaction.Make sender recipient amount (clock w (ticks w))]) /\
  (forall fuel self miner w self' w',
     IndianBlockchain.mine_pending_transactions fuel self miner w
     = Returns self' w' ->
     ledger self'
     = ledger self
       ++ [Transaction.Make "Network" miner IndianBlockchain.reward (clock w (ticks w))]).
Proof.
  split.
  - intros self sender recipient amount w self' w'.
    rewrite add_transaction_returns. intros [= <- _].
    unfold ledger. simpl. by rewrite app_assoc.
  - intros fuel self miner w self' w'
      (tip & block0 & block & w1 & w2 & Htip & Hinit & Hmine & ->)
      %mine_pending_transactions_returns.
    rewrite block_init_returns in Hinit. inversion Hinit as [Hb0]; clear Hinit.
    apply mine_block_fields in Hmine as (_ & _ & _ & _ & Ht & _).
    unfold ledger. simpl. rewrite flat_map_snoc, Ht, <- Hb0. simpl.
    by rewrite app_nil_r, app_assoc.
Qed.

Lemma ledger_append_only_witness :
  IndianBlockchain.mine_pending_transactions 10 (fst demo_pending) "M" (snd demo_pending)
  = Returns (fst demo_sealed) (snd demo_sealed) /\
  IndianBlockchain.pending_transactions (fst demo_pending) <> [] /\
  ledger (fst demo_sealed)
  = ledger (fst demo_pending)
    ++ [Transaction.Make "Network" "M" IndianBlockchain.reward
          (clock (snd demo_pending) (ticks (snd demo_pending)))].
Proof.
  assert (Hrun : IndianBlockchain.mine_pending_transactions 10 (fst demo_pending) "M"
                   (snd demo_pending)
                 = Returns (fst demo_sealed) (snd demo_sealed))
    by (vm_compute; reflexivity).
  split; [exact Hrun|]. split; [intros H; discriminate H|].
  exact (proj2 ledger_append_only _ _ _ _ _ _ Hrun).
Defined.

(** X8.  What [mine_pending_transactions] prints and when it reads the
    clock: it makes four calls of [print], in this order (the reward
    transaction, the announcement, the nonce found, the confirmation), and
    two readings of the clock, the first of which stamps the reward
    transaction and the second the block. *)
Theorem mine_pending_transactions_trace fuel self miner w self' w' :
  IndianBlockchain.mine_pending_transactions fuel self miner w = Returns self' w' ->
  exists block,
    last (IndianBlockchain.chain self') = Some block /\
    stdout w'
    = stdout w ++ [ TransactionAdded "Network" miner IndianBlockchain.reward;
                    MiningBlock (Block.index block);
                    BlockMined (Block.nonce block);
                    BlockAdded (Block.index block) ] /\
    ticks w' = S (S (ticks w)) /\
    clock w' = clock w /\
    Block.timestamp block = clock w (S (ticks w)) /\
    exists reward_tx,
      last (Block.transactions block) = Some reward_tx /\
      Transaction.timestamp reward_tx = clock w (ticks w).
Proof.
  unfold IndianBlockchain.mine_pending_transactions.
  rewrite (bind_of_returns _ _ _ _ _ (add_transaction_returns _ _ _ _ _)).
  intros (tip & w1 & Htip & H)%bind_returns.
  unfold IndianBlockchain.get_latest_block in Htip. simpl in Htip.
  destruct (last (IndianBlockchain.chain self)) as [tip'|]; [|discriminate].
  unfold ret in Htip. simplify_eq.
  rewrite (bind_of_returns _ _ _ _ _ (block_init_returns _ _ _ _)) in H.
  apply bind_returns in H as ([] & w2 & Hprint & H).
  apply bind_returns in H as (block & w3 & Hmine & H).
  unfold print in Hprint. simpl in Hprint. simplify_eq.
  pose proof (mine_block_fields _ _ _ _ _ _ Hmine) as (_ & _ & Hi & Hts & Htx & _).
  apply mine_block_returns in Hmine as (-> & _).
  unfold bind, print, ret in H. simpl in H. simplify_eq. simpl in *.
  exists block. split; [by rewrite last_snoc|].
  rewrite Hi, Hts, Htx. split; [by rewrite <- !app_assoc|].
  split; [done|]. split; [done|]. split; [done|].
  eexists. split; [by rewrite last_snoc|done].
Qed.

Lemma mine_pending_transactions_trace_witness :
  IndianBlockchain.mine_pending_transactions 10 (fst demo_pending) "M" (snd demo_pending)
  = Returns (fst demo_sealed) (snd demo_sealed) /\
  stdout (snd demo_sealed)
  = stdout (snd demo_pending)
    ++ [ TransactionAdded "Network" "M" IndianBlockchain.reward;
         MiningBlock 1; BlockMined 3; BlockAdded 1 ] /\
  ticks (snd demo_sealed) = S (S (ticks (snd demo_pending))).
Proof.
  assert (Hrun : IndianBlockchain.mine_pending_transactions 10 (fst demo_pending) "M"
                   (snd demo_pending)
                 = Returns (fst demo_sealed) (snd demo_sealed))
    by (vm_compute; reflexivity).
  destruct (mine_pending_transactions_trace _ _ _ _ _ _ Hrun)
    as (block & Hlast & Hout & Hticks & _).
  split; [exact Hrun|]. split; [|exact Hticks].
  rewrite Hout. vm_compute in Hlast. injection Hlast as <-. reflexivity.
Defined.

(** ** The shape of the chains the module builds *)

(** What a call of [mine_pending_transactions] that returns has appended. *)
Lemma mine_pending_transactions_appends fuel self miner w self' w' :
  IndianBlockchain.mine_pending_transactions fuel self miner w = Returns self' w' ->
  exists tip block,
    last (IndianBlockchain.chain self) = Some tip /\
    self' = IndianBlockchain.Make (IndianBlockchain.chain self ++ [block])
              (IndianBlockchain.difficulty self) [] /\
    Block.index block = Z.of_nat (length (IndianBlockchain.chain self)) /\
    Block.transactions block
    = IndianBlockchain.pending_transactions self
      ++ [Transaction.Make "Network" miner IndianBlockchain.reward (clock w (ticks w))] /\
    Block.previous_hash block = Block.hash tip /\
    sealed (IndianBlockchain.difficulty self) block.
Proof.
  intros (tip & block0 & block & w1 & w2 & Htip & Hinit & Hmine & ->)
    %mine_pending_transactions_returns.
  exists tip, block. do 2 (split; [done|]).
  pose proof (block_init_consistent _ _ _ _ _ _ Hinit) as Hcons.
  rewrite block_init_returns in Hinit. inversion Hinit as [Hb0]; clear Hinit.
  apply mine_block_fields in Hmine as (Hmeet & Hkeep & Hi & _ & Ht & Hp).
  rewrite Hi, Ht, Hp, <- Hb0. simpl. repeat split; auto.
Qed.

Lemma reachable_shape self :
  reachable self ->
  IndianBlockchain.chain self <> [] /\
  forall i b, IndianBlockchain.chain self !! i = Some b ->
    block_shape (IndianBlockchain.difficulty self) i b.
Proof.
  induction 1 as [fuel d w self w' Hinit
                 |self sender recipient amount w self' w' _ [IHn IHs] Hadd
                 |fuel self miner w self' w' _ [IHn IHs] Hmine].
  - apply init_returns in Hinit as (g & -> & Hi & Ht & _ & Hc & Hm). simpl.
    split; [done|]. intros [|i] b Hb; [|by destruct i].
    simpl in Hb. injection Hb as <-. by repeat split.
  - rewrite add_transaction_returns in Hadd. injection Hadd as <- _. done.
  - apply mine_pending_transactions_appends in Hmine
      as (tip & block & Htip & -> & Hi & Ht & _ & Hs). simpl.
    split; [by destruct (IndianBlockchain.chain self)|].
    intros i b Hb. apply lookup_app_Some in Hb as [Hb|[Hlen Hb]]; [by apply IHs|].
    destruct (i - length (IndianBlockchain.chain self))%nat as [|k] eqn:Hk;
      [|by destruct k].
    simpl in Hb. injection Hb as <-.
    assert (i = length (IndianBlockchain.chain self)) as -> by lia.
    split; [done|]. split; [done|].
    destruct (IndianBlockchain.chain self) as [|g rest]; [done|]. simpl.
    by eexists _, _.
Qed.

(** The example chain of three blocks is one the module builds. *)
Ltac demo_three_is_reachable :=
  apply (reach_mine 10 (fst demo_sealed) "M" (snd demo_sealed) _ (snd demo_three));
    [|vm_compute; reflexivity];
  apply (reach_mine 10 (fst demo_pending) "M" (snd demo_pending) _ (snd demo_sealed));
    [|vm_compute; reflexivity];
  apply (reach_add
           (IndianBlockchain.Make (IndianBlockchain.chain (fst demo_fresh)) 2
              [Transaction.Make "A" "B" (binary64 100 0) (binary64 1700000032 0)])
           "B" "C" (binary64 50 0)
           (say (TransactionAdded "A" "B" (binary64 100 0)) (tick (snd demo_fresh)))
           _ (snd demo_pending));
    [|vm_compute; reflexivity];
  apply (reach_add (fst demo_fresh) "A" "B" (binary64 100 0) (snd demo_fresh)
           _ (say (TransactionAdded "A" "B" (binary64 100 0)) (tick (snd demo_fresh))));
    [|vm_compute; reflexivity];
  apply (reach_init 10 (Some 2) demo_world _ (snd demo_fresh));
  vm_compute; reflexivity.

(** X9.  A chain built by the constructor, [add_transaction] and
    [mine_pending_transactions] is never empty, so [get_latest_block]
    returns on it, and the block at position [i] has index [i]. *)
Theorem reachable_chain_indexed self :
  reachable self ->
  IndianBlockchain.chain self <> [] /\
  (forall w, exists b, IndianBlockchain.get_latest_block self w = Returns b w) /\
  forall i b, IndianBlockchain.chain self !! i = Some b -> Block.index b = Z.of_nat i.
Proof.
  intros [Hn Hs]%reachable_shape. split; [done|]. split.
  - intros w. unfold IndianBlockchain.get_latest_block.
    destruct (last (IndianBlockchain.chain self)) as [b|] eqn:Hlast; [by exists b|].
    by apply last_None in Hlast.
  - intros i b Hb. by destruct (Hs i b Hb) as [? _].
Qed.

Lemma reachable_chain_indexed_witness :
  reachable (fst demo_three) /\
  length (IndianBlockchain.chain (fst demo_three)) = 3%nat /\
  forall i b, IndianBlockchain.chain (fst demo_three) !! i = Some b ->
    Block.index b = Z.of_nat i.
Proof.
  assert (Hr : reachable (fst demo_three)) by demo_three_is_reachable.
  split; [exact Hr|]. split; [reflexivity|].
  exact (proj2 (proj2 (reachable_chain_indexed _ Hr))).
Defined.

(** X10.  In a chain built by the constructor, [add_transaction] and
    [mine_pending_transactions], every block, the genesis block included,
    stores the hash of its own fields, and that hash starts with as many
    zeros as the difficulty of the chain asks for. *)
Theorem reachable_blocks_sealed self :
  reachable self ->
  forall i b, IndianBlockchain.chain self !! i = Some b ->
    Block.hash b = Block.calculate_hash b /\
    meets_target (IndianBlockchain.difficulty self) (Block.hash b) = true /\
    leading_zeros (IndianBlockchain.difficulty self) (Block.hash b).
Proof.
  intros [_ Hs]%reachable_shape i b Hb.
  destruct (Hs i b Hb) as (_ & [Hc Hm] & _).
  split; [done|]. split; [done|]. by apply meets_target_leading_zeros.
Qed.

Lemma reachable_blocks_sealed_witness :
  reachable (fst demo_three) /\
  IndianBlockchain.chain (fst demo_three) !! 0%nat = Some demo_genesis /\
  Block.hash demo_genesis = Block.calculate_hash demo_genesis /\
  leading_zeros 2 (Block.hash demo_genesis).
Proof.
  assert (Hr : reachable (fst demo_three)) by demo_three_is_reachable.
  assert (Hg : IndianBlockchain.chain (fst demo_three) !! 0%nat = Some demo_genesis)
    by reflexivity.
  destruct (reachable_blocks_sealed _ Hr 0%nat demo_genesis Hg) as (Hc & _ & Hz).
  split; [exact Hr|]. split; [exact Hg|]. split; [exact Hc | exact Hz].
Defined.

(** X11.  In a chain built by the constructor, [add_transaction] and
    [mine_pending_transactions], the genesis block has no transactions,
    and every later block ends with a reward transaction: its sender is
    ["Network"] and its amount [10.0]. *)
Theorem reachable_blocks_rewarded self :
  reachable self ->
  (forall g, IndianBlockchain.chain self !! 0%nat = Some g ->
     Block.transactions g = []) /\
  forall i b, (1 <= i)%nat -> IndianBlockchain.chain self !! i = Some b ->
    exists txs tx,
      Block.transactions b = txs ++ [tx] /\
      Transaction.sender tx = "Network" /\
      Transaction.amount tx = binary64 10 0.
Proof.
  intros [_ Hs]%reachable_shape. split.
  - intros g Hg. by destruct (Hs 0%nat g Hg) as (_ & _ & ?).
  - intros [|i] b Hi Hb; [lia|]. by destruct (Hs (S i) b Hb) as (_ & _ & ?).
Qed.

Lemma reachable_blocks_rewarded_witness :
  reachable (fst demo_three) /\
  exists b txs tx,
    IndianBlockchain.chain (fst demo_three) !! 1%nat = Some b /\
    Block.transactions b = txs ++ [tx] /\
    length txs = 2%nat /\
    Transaction.sender tx = "Network" /\
    Transaction.amount tx = binary64 10 0.
Proof.
  assert (Hr : reachable (fst demo_three)) by demo_three_is_reachable.
  split; [exact Hr|].
  destruct (proj2 (reachable_blocks_rewarded _ Hr) 1%nat demo_block1 (le_n 1) eq_refl)
    as (txs & tx & Ht & Hs & Ha).
  exists demo_block1, txs, tx. split; [reflexivity|]. split; [exact Ht|].
  split; [|split; [exact Hs | exact Ha]].
  apply (f_equal length) in Ht. rewrite length_app in Ht.
  change (length (Block.transactions demo_block1)) with 3%nat in Ht.
  simpl in Ht. lia.
Defined.

(** ** What validation sees and what it does not *)

Lemma returns_say_inj {A} (r r' : A) msg msg' w :
  Returns r (say msg w) = Returns r' (say msg' w) -> r = r' /\ msg = msg'.
Proof.
  unfold say. intros [= -> H]. apply app_inv_head in H. by injection H as ->.
Qed.

Lemma ok_at_app c later d i : ok_at c d i -> ok_at (c ++ later) d i.
Proof.
  intros (cur & prev & Hc & Hp & Hok). exists cur, prev.
  split; [by apply lookup_app_l_Some|]. split; [by apply lookup_app_l_Some|done].
Qed.

(** The verdict and the line printed depend on the chain and the
    difficulty only, and every call returns. *)
Lemma is_chain_valid_verdict self (w : world) :
  exists r msg,
    forall pool w0,
      IndianBlockchain.is_chain_valid
        (IndianBlockchain.Make (IndianBlockchain.chain self)
           (IndianBlockchain.difficulty self) pool) w0
      = Returns r (say msg w0).
Proof.
  destruct (is_chain_valid_cases self w) as [[Hall _]|H].
  - exists true, BlockchainValid. intros pool w0. by apply is_chain_valid_true.
  - destruct H as (i & cur & prev & Hi & Hc & Hp & Hbefore & Hf & _).
    exists false, (failure_message (IndianBlockchain.difficulty self) i prev cur).
    intros pool w0.
    apply (is_chain_valid_false
             (IndianBlockchain.Make (IndianBlockchain.chain self)
                (IndianBlockchain.difficulty self) pool)); simpl; [lia|done..].
Qed.

(** X12.  [is_chain_valid] never raises [IndexError], whatever the length
    of the chain: the indices [i] and [i - 1] it uses exist.  A call that
    returns has made exactly one call of [print] and has not read the
    clock, and its answer and what it prints are the same whatever the
    pending pool holds and whatever was printed before. *)
Theorem is_chain_valid_never_index_error self w :
  (forall w', IndianBlockchain.is_chain_valid self w <> Raises IndexError w') /\
  (forall r w',
      IndianBlockchain.is_chain_valid self w = Returns r w' ->
      exists msg,
        w' = say msg w /\
        forall pool w0,
          IndianBlockchain.is_chain_valid
            (IndianBlockchain.Make (IndianBlockchain.chain self)
               (IndianBlockchain.difficulty self) pool) w0
          = Returns r (say msg w0)).
Proof.
  destruct (is_chain_valid_verdict self w) as (r & msg & H).
  assert (Hrun : IndianBlockchain.is_chain_valid self w = Returns r (say msg w)).
  { specialize (H (IndianBlockchain.pending_transactions self) w).
    by destruct self. }
  split.
  - intros w'. rewrite Hrun. discriminate.
  - intros r' w' Hr'. rewrite Hrun in Hr'.
    inversion Hr' as [[Hr Hw]]. exists msg. split; [reflexivity|].
    intros pool w0. rewrite <- Hr. apply H.
Qed.

Lemma is_chain_valid_never_index_error_witness :
  length (IndianBlockchain.chain demo_three_tampered) = 3%nat /\
  IndianBlockchain.is_chain_valid demo_three_tampered demo_world
  = Returns false (say (InvalidHash 1) demo_world) /\
  forall pool w0,
    IndianBlockchain.is_chain_valid
      (IndianBlockchain.Make (IndianBlockchain.chain demo_three_tampered)
         (IndianBlockchain.difficulty demo_three_tampered) pool) w0
    = Returns false (say (InvalidHash 1) w0).
Proof.
  assert (Hbad : IndianBlockchain.is_chain_valid demo_three_tampered demo_world
                 = Returns false (say (InvalidHash 1) demo_world))
    by (vm_compute; reflexivity).
  split; [reflexivity|]. split; [exact Hbad|].
  destruct (proj2 (is_chain_valid_never_index_error demo_three_tampered demo_world)
              false _ Hbad) as (msg & Hm & Hall).
  assert (Hmsg : msg = InvalidHash 1).
  { assert (Hr : Returns false (say (InvalidHash 1) demo_world)
                 = Returns false (say msg demo_world)) by (f_equal; exact Hm).
    apply returns_say_inj in Hr as [_ Hr]. symmetry. exact Hr. }
  rewrite <- Hmsg. exact Hall.
Defined.

(** The verdict on a chain is the verdict on the chain with one more block
    that passes the checks. *)
Lemma is_chain_valid_snoc c d pool pool' tip block r msg w0 w1 :
  last c = Some tip ->
  block_ok d tip block = true ->
  IndianBlockchain.is_chain_valid (IndianBlockchain.Make c d pool) w0
  = Returns r (say msg w0) ->
  IndianBlockchain.is_chain_valid (IndianBlockchain.Make (c ++ [block]) d pool') w1
  = Returns r (say msg w1).
Proof.
  intros Htip Hok Hrun.
  apply last_lookup_length in Htip as [Htip Hlen].
  destruct (is_chain_valid_cases (IndianBlockchain.Make c d pool) w0)
    as [[Hall Htrue]|H]; simpl in *.
  - rewrite Htrue in Hrun. apply returns_say_inj in Hrun as [<- <-].
    apply is_chain_valid_true. simpl. rewrite length_app. simpl. intros i Hi.
    destruct (decide (i < length c)%nat).
    + apply ok_at_app, Hall. lia.
    + assert (i = length c) as -> by lia. exists block, tip.
      rewrite lookup_app_r by lia. rewrite lookup_app_l by lia.
      by rewrite Nat.sub_diag.
  - destruct H as (i & cur & prev & Hi & Hc & Hp & Hbefore & Hf & Hfalse).
    rewrite Hfalse in Hrun. apply returns_say_inj in Hrun as [<- <-].
    apply (is_chain_valid_false (IndianBlockchain.Make (c ++ [block]) d pool'));
      simpl; [lia| | | |done].
    + by apply lookup_app_l_Some.
    + by apply lookup_app_l_Some.
    + intros j Hj. by apply ok_at_app, Hbefore.
Qed.

(** X13.  Neither [add_transaction] nor [mine_pending_transactions] changes
    what [is_chain_valid] says: a chain that passed passes with the new
    block on it, and a chain that failed fails at the same block with the
    same line, so mining on top of a chain that was tampered with does not
    repair it. *)
Theorem operations_keep_the_verdict :
  (forall self sender recipient amount w self' w' r msg w0 w1,
     IndianBlockchain.add_transaction self sender recipient amount w
     = Returns self' w' ->
     IndianBlockchain.is_chain_valid self w0 = Returns r (say msg w0) ->
     IndianBlockchain.is_chain_valid self' w1 = Returns r (say msg w1)) /\
  (forall fuel self miner w self' w' r msg w0 w1,
     IndianBlockchain.mine_pending_transactions fuel self miner w
     = Returns self' w' ->
     IndianBlockchain.is_chain_valid self w0 = Returns r (say msg w0) ->
     IndianBlockchain.is_chain_valid self' w1 = Returns r (say msg w1)).
Proof.
  split.
  - intros self sender recipient amount w self' w' r msg w0 w1.
    rewrite add_transaction_returns. intros [= <- _] Hrun.
    destruct (is_chain_valid_verdict self w0) as (r' & msg' & H).
    pose proof (H (IndianBlockchain.pending_transactions self) w0) as H0.
    destruct self as [c d p]. simpl in *. rewrite H0 in Hrun.
    apply returns_say_inj in Hrun as [<- <-]. apply H.
  - intros fuel self miner w self' w' r msg w0 w1
      (tip & block & Htip & Hc & Hd & Hok)%mine_pending_transactions_block Hrun.
    destruct self as [c d p], self' as [c' d' p']. simpl in *. subst c' d'.
    by eapply is_chain_valid_snoc.
Qed.

Lemma operations_keep_the_verdict_witness :
  IndianBlockchain.is_chain_valid demo_sealed_tampered demo_world
  = Returns false (say (InvalidHash 1) demo_world) /\
  IndianBlockchain.mine_pending_transactions 10 demo_sealed_tampered "M" (snd demo_sealed)
  = Returns (fst demo_tampered_mined) (snd demo_tampered_mined) /\
  length (IndianBlockchain.chain (fst demo_tampered_mined)) = 3%nat /\
  IndianBlockchain.is_chain_valid (fst demo_tampered_mined) demo_world
  = Returns false (say (InvalidHash 1) demo_world).
Proof.
  assert (Hbad : IndianBlockchain.is_chain_valid demo_sealed_tampered demo_world
                 = Returns false (say (InvalidHash 1) demo_world))
    by (vm_compute; reflexivity).
  assert (Hmine : IndianBlockchain.mine_pending_transactions 10 demo_sealed_tampered
                    "M" (snd demo_sealed)
                  = Returns (fst demo_tampered_mined) (snd demo_tampered_mined))
    by (vm_compute; reflexivity).
  split; [exact Hbad|]. split; [exact Hmine|]. split; [reflexivity|].
  exact (proj2 operations_keep_the_verdict _ _ _ _ _ _ _ _ _ _ Hmine Hbad).
Defined.

(** X14.  Replacing a block by one with another stored hash is caught at the
    block after it, as a broken link, when the replacement itself passes
    the checks (as it does once it has been mined again) or is the genesis
    block, which is not checked. *)
Theorem replaced_block_breaks_next_link self i b b' next w w' :
  IndianBlockchain.is_chain_valid self w = Returns true w' ->
  IndianBlockchain.chain self !! i = Some b ->
  IndianBlockchain.chain self !! S i = Some next ->
  Block.hash b' <> Block.hash b ->
  (forall prev, (1 <= i)%nat ->
     IndianBlockchain.chain self !! (i - 1)%nat = Some prev ->
     block_ok (IndianBlockchain.difficulty self) prev b' = true) ->
  IndianBlockchain.is_chain_valid
    (IndianBlockchain.Make (<[i:=b']> (IndianBlockchain.chain self))
       (IndianBlockchain.difficulty self)
       (IndianBlockchain.pending_transactions self)) w
  = Returns false (say (InvalidLinkage (S i)) w).
Proof.
  intros Hvalid Hb Hnext Hhash Hok'.
  pose proof (is_chain_valid_all_ok _ _ _ Hvalid) as Hall.
  assert (Hlen : (S i < length (IndianBlockchain.chain self))%nat)
    by (by eapply lookup_lt_Some).
  destruct (Hall (S i)) as (cur & prev & Hcur & Hprev & Hok); [lia|].
  simpl in Hprev. rewrite Nat.sub_0_r in Hprev.
  assert (cur = next) as -> by congruence. assert (prev = b) as -> by congruence.
  unfold block_ok in Hok.
  apply andb_true_iff in Hok as [[Hh Hl]%andb_true_iff Hp].
  assert (Hlink : link_ok b' next = false).
  { unfold link_ok in *. apply String.eqb_eq in Hl. apply String.eqb_neq. congruence. }
  rewrite (is_chain_valid_false _ w (S i) next b'); simpl.
  - unfold failure_message. by rewrite Hh, Hlink.
  - lia.
  - rewrite list_lookup_insert_ne by lia. done.
  - rewrite Nat.sub_0_r. apply list_lookup_insert_eq. lia.
  - intros j Hj. destruct (decide (j = i)) as [->|Hne].
    + destruct (Hall i) as (cur & prev & Hcur' & Hprev' & _); [lia|].
      exists b', prev. split; [apply list_lookup_insert_eq; lia|].
      split; [by rewrite list_lookup_insert_ne by lia|]. apply Hok'; [lia|done].
    + apply ok_at_insert_before; [lia|]. apply Hall. lia.
  - unfold block_ok. by rewrite Hh, Hlink.
Qed.

Lemma replaced_block_breaks_next_link_witness :
  Block.hash demo_block1_remined = Block.calculate_hash demo_block1_remined /\
  Block.hash demo_block1_remined <> Block.hash demo_block1 /\
  block_ok 2 demo_genesis demo_block1_remined = true /\
  IndianBlockchain.is_chain_valid
    (IndianBlockchain.Make
       (<[1%nat := demo_block1_remined]> (IndianBlockchain.chain (fst demo_three)))
       2 []) (snd demo_three)
  = Returns false (say (InvalidLinkage 2) (snd demo_three)).
Proof.
  assert (Hvalid : IndianBlockchain.is_chain_valid (fst demo_three) (snd demo_three)
                   = Returns true (say BlockchainValid (snd demo_three)))
    by (vm_compute; reflexivity).
  assert (Hhash : Block.hash demo_block1_remined <> Block.hash demo_block1)
    by (intros H; discriminate H).
  assert (Hok : block_ok 2 demo_genesis demo_block1_remined = true)
    by (vm_compute; reflexivity).
  split; [vm_compute; reflexivity|]. split; [exact Hhash|]. split; [exact Hok|].
  apply (replaced_block_breaks_next_link (fst demo_three) 1 demo_block1
           demo_block1_remined
           (nth 2 (IndianBlockchain.chain (fst demo_three)) demo_unmined)
           (snd demo_three) _ Hvalid eq_refl eq_refl Hhash).
  intros prev _ Hprev. injection Hprev as <-. exact Hok.
Defined.

(** X15.  Validation does not notice a rewritten last block: put in the
    place of the last block any block that the constructor builds on the
    hash of the block before it and that [mine_block] has mined at the
    difficulty of the chain, whatever its index and its transactions, and
    [is_chain_valid] returns [True]. *)
Theorem rewritten_tip_accepted fuel self i prev index txs w0 b0 w1 b' w2 w w' :
  IndianBlockchain.is_chain_valid self w = Returns true w' ->
  length (IndianBlockchain.chain self) = S (S i) ->
  IndianBlockchain.chain self !! i = Some prev ->
  Block.init index txs (Block.hash prev) w0 = Returns b0 w1 ->
  Block.mine_block fuel b0 (IndianBlockchain.difficulty self) w1 = Returns b' w2 ->
  forall w3,
    IndianBlockchain.is_chain_valid
      (IndianBlockchain.Make (<[S i:=b']> (IndianBlockchain.chain self))
         (IndianBlockchain.difficulty self)
         (IndianBlockchain.pending_transactions self)) w3
    = Returns true (say BlockchainValid w3).
Proof.
  intros Hvalid Hlen Hprev Hinit Hmine w3.
  pose proof (is_chain_valid_all_ok _ _ _ Hvalid) as Hall.
  pose proof (block_init_consistent _ _ _ _ _ _ Hinit) as Hcons.
  rewrite block_init_returns in Hinit. inversion Hinit as [[Hb0 Hw1]]; clear Hinit.
  apply mine_block_fields in Hmine as (Hmeet & Hkeep & _ & _ & _ & Hp).
  apply is_chain_valid_true. simpl. rewrite length_insert, Hlen. intros j Hj.
  destruct (decide (j = S i)) as [->|Hne].
  - exists b', prev. split; [apply list_lookup_insert_eq; lia|].
    split; [simpl; rewrite Nat.sub_0_r; by rewrite list_lookup_insert_ne by lia|].
    unfold block_ok, hash_ok, link_ok, pow_ok.
    rewrite Hmeet, Hp, <- Hb0. simpl.
    rewrite (proj2 (String.eqb_eq _ _) (Hkeep Hcons)), String.eqb_refl. done.
  - apply ok_at_insert_before; [lia|]. apply Hall. lia.
Qed.

Lemma rewritten_tip_accepted_witness :
  Block.mine_block 10 demo_forged_unmined 2 (tick (snd demo_three))
  = Returns demo_forged_tip (say (BlockMined 2) (tick (snd demo_three))) /\
  Block.transactions demo_forged_tip = demo_forged_transactions /\
  IndianBlockchain.chain (fst demo_three) !! 2%nat <> Some demo_forged_tip /\
  IndianBlockchain.is_chain_valid
    (IndianBlockchain.Make
       (<[2%nat := demo_forged_tip]> (IndianBlockchain.chain (fst demo_three))) 2 [])
    (snd demo_three)
  = Returns true (say BlockchainValid (snd demo_three)).
Proof.
  assert (Hvalid : IndianBlockchain.is_chain_valid (fst demo_three) (snd demo_three)
                   = Returns true (say BlockchainValid (snd demo_three)))
    by (vm_compute; reflexivity).
  assert (Hmine : Block.mine_block 10 demo_forged_unmined 2 (tick (snd demo_three))
                  = Returns demo_forged_tip
                      (say (BlockMined 2) (tick (snd demo_three))))
    by (vm_compute; reflexivity).
  split; [exact Hmine|]. split; [reflexivity|].
  split; [intros H; discriminate H|].
  exact (rewritten_tip_accepted 10 (fst demo_three) 1 demo_block1 2
           demo_forged_transactions (snd demo_three) demo_forged_unmined
           (tick (snd demo_three)) demo_forged_tip _ (snd demo_three) _
           Hvalid eq_refl eq_refl (block_init_returns _ _ _ _) Hmine (snd demo_three)).
Defined.

(** ** The difficulty *)

Lemma meets_target_mono d d' h :
  0 <= d' <= d -> meets_target d h = true -> meets_target d' h = true.
Proof.
  intros Hd H%meets_target_leading_zeros.
  apply meets_target_iff_leading_zeros; [lia|]. intros k Hk. apply H. lia.
Qed.

(** X16.  A chain that passes at one difficulty passes at every lower one
    down to 0: lowering the [difficulty] attribute never invalidates a
    chain. *)
Theorem lower_difficulty_still_valid c d d' pool pool' w w' :
  IndianBlockchain.is_chain_valid (IndianBlockchain.Make c d pool) w = Returns true w' ->
  0 <= d' <= d ->
  IndianBlockchain.is_chain_valid (IndianBlockchain.Make c d' pool') w
  = Returns true (say BlockchainValid w).
Proof.
  intros Hvalid Hd. pose proof (is_chain_valid_all_ok _ _ _ Hvalid) as Hall.
  apply is_chain_valid_true. simpl in *. intros i Hi.
  destruct (Hall i Hi) as (cur & prev & Hc & Hp & Hok). exists cur, prev.
  split; [done|]. split; [done|]. unfold block_ok, pow_ok in *.
  apply andb_true_iff in Hok as [-> Hpow]. simpl. by eapply meets_target_mono.
Qed.

Lemma lower_difficulty_still_valid_witness :
  IndianBlockchain.is_chain_valid (fst demo_three) (snd demo_three)
  = Returns true (say BlockchainValid (snd demo_three)) /\
  IndianBlockchain.is_chain_valid
    (IndianBlockchain.Make (IndianBlockchain.chain (fst demo_three)) 1 [])
    (snd demo_three)
  = Returns true (say BlockchainValid (snd demo_three)) /\
  IndianBlockchain.is_chain_valid
    (IndianBlockchain.Make (IndianBlockchain.chain (fst demo_three)) 3 [])
    (snd demo_three)
  = Returns false (say (InvalidProofOfWork 1) (snd demo_three)).
Proof.
  assert (Hvalid : IndianBlockchain.is_chain_valid
            (IndianBlockchain.Make (IndianBlockchain.chain (fst demo_three)) 2 [])
            (snd demo_three)
          = Returns true (say BlockchainValid (snd demo_three)))
    by (vm_compute; reflexivity).
  split; [exact Hvalid|]. split; [|vm_compute; reflexivity].
  apply (lower_difficulty_still_valid _ 2 1 [] [] _ _ Hvalid). lia.
Defined.

(** X17.  With a difficulty of more than 64, or a negative one above -64,
    [is_chain_valid] never returns [True] on a chain of two or more
    blocks: at block 1 a stored hash that is the hash of the fields has 64
    characters and cannot meet the target. *)
Theorem unmeetable_difficulty_never_validates c d pool w prev cur :
  64 < d \/ -64 < d < 0 ->
  c !! 0%nat = Some prev -> c !! 1%nat = Some cur ->
  forall w',
    IndianBlockchain.is_chain_valid (IndianBlockchain.Make c d pool) w
    <> Returns true w'.
Proof.
  intros Hd Hprev Hcur w'.
  assert (Hf : block_ok d prev cur = false).
  { unfold block_ok, hash_ok, pow_ok.
    destruct (String.eqb_spec (Block.hash cur) (Block.calculate_hash cur)) as [->|];
      [|done].
    unfold Block.calculate_hash. rewrite (meets_target_digest _ _ Hd).
    apply andb_false_r. }
  rewrite (is_chain_valid_false (IndianBlockchain.Make c d pool) w 1 cur prev);
    simpl; [discriminate|lia|done|done| |done].
  intros j Hj. lia.
Qed.

Lemma unmeetable_difficulty_never_validates_witness :
  IndianBlockchain.is_chain_valid (fst demo_three) (snd demo_three)
  = Returns true (say BlockchainValid (snd demo_three)) /\
  forall w',
    IndianBlockchain.is_chain_valid
      (IndianBlockchain.Make (IndianBlockchain.chain (fst demo_three)) 65 [])
      (snd demo_three)
    <> Returns true w'.
Proof.
  split; [vm_compute; reflexivity|].
  assert (Hd : 64 < 65 \/ -64 < 65 < 0) by (left; lia).
  exact (unmeetable_difficulty_never_validates
           (IndianBlockchain.chain (fst demo_three)) 65 [] (snd demo_three)
           demo_genesis demo_block1 Hd eq_refl eq_refl).
Defined.

(** ** The text of a float tells the float *)

Lemma cmp_scaled_decimal d k x q :
  Py.cmp_scaled d 0 k x q 0
  = (d * (2 ^ Z.max (- q) 0 * 10 ^ Z.max k 0)
     ?= x * (2 ^ Z.max q 0 * 10 ^ Z.max (- k) 0)).
Proof.
  unfold Py.cmp_scaled.
  replace (0 - Z.min 0 q) with (Z.max (- q) 0) by lia.
  replace (k - Z.min k 0) with (Z.max k 0) by lia.
  replace (q - Z.min 0 q) with (Z.max q 0) by lia.
  replace (0 - Z.min k 0) with (Z.max (- k) 0) by lia.
  by rewrite !Z.mul_assoc.
Qed.

Lemma lower_gap_cases m e : Py.lower_gap m e = 1 \/ Py.lower_gap m e = 2.
Proof. unfold Py.lower_gap. destruct (_ && _); auto. Qed.

Lemma pow_max_pos b x : 0 < b -> 0 < b ^ Z.max x 0.
Proof. intros Hb. apply Z.pow_pos_nonneg; [done|apply Z.le_max_r]. Qed.

Lemma scale_pos q k : 0 < 2 ^ Z.max q 0 * 10 ^ Z.max k 0.
Proof. apply Z.mul_pos_pos; apply Z.pow_pos_nonneg; lia. Qed.

Lemma try_digits_in_interval m e k d :
  0 < m -> Py.try_digits m e k = Some d -> in_interval m e d k.
Proof.
  intros Hm. unfold Py.try_digits, in_interval. rewrite !cmp_scaled_decimal.
  set (T := 2 ^ Z.max (e - 2) 0 * 10 ^ Z.max (- k) 0).
  set (U := 2 ^ Z.max (- (e - 2)) 0 * 10 ^ Z.max k 0).
  assert (HT : 0 < T) by apply scale_pos.
  assert (HU : 0 < U) by apply scale_pos.
  set (dl := 4 * m * T / U).
  assert (Hfloor : dl * U <= 4 * m * T < (dl + 1) * U).
  { pose proof (Z.div_mod (4 * m * T) U) as Hdm.
    pose proof (Z.mod_pos_bound (4 * m * T) U HU) as Hmod.
    fold dl in Hdm. lia. }
  assert (Hg : Py.lower_gap m e = 1 \/ Py.lower_gap m e = 2) by apply lower_gap_cases.
  set (g := Py.lower_gap m e) in *. clearbody g.
  destruct (Z.compare_spec (dl * U) ((4 * m - g) * T)) as [Hlo|Hlo|Hlo];
    destruct (Z.compare_spec ((dl + 1) * U) ((4 * m + 2) * T)) as [Hhi|Hhi|Hhi];
    destruct (Z.even m) eqn:Hev; simpl;
    repeat match goal with |- context [match ?c with _ => _ end] => destruct c end;
    intros [= <-]; destruct Hg as [-> | ->];
    split; first [left; lia | right; split; [lia|done] ].
Qed.

Lemma exact_decimal_in_interval m e d k :
  0 < m -> Py.exact_decimal m e = (d, k) -> in_interval m e d k.
Proof.
  intros Hm. unfold Py.exact_decimal, in_interval.
  pose proof (lower_gap_cases m e) as Hg.
  set (g := Py.lower_gap m e) in *. clearbody g.
  destruct (Z.ltb_spec e 0) as [He|He]; intros [= <- <-].
  - replace (Z.max (e - 2) 0) with 0 by lia.
    replace (Z.max (- (e - 2)) 0) with (2 + - e) by lia.
    replace (Z.max e 0) with 0 by lia.
    replace (Z.max (- e) 0) with (- e) by lia.
    rewrite Z.pow_add_r by lia.
    replace (10 ^ (- e)) with (2 ^ (- e) * 5 ^ (- e))
      by (rewrite <- Z.pow_mul_l; done).
    assert (0 < 2 ^ (- e)) by (apply Z.pow_pos_nonneg; lia).
    assert (0 < 5 ^ (- e)) by (apply Z.pow_pos_nonneg; lia).
    assert (0 < 2 ^ (- e) * 5 ^ (- e)) by lia.
    change (2 ^ 0) with 1. change (10 ^ 0) with 1. change (2 ^ 2) with 4.
    split; left; destruct Hg as [-> | ->]; nia.
  - replace (Z.max 0 0) with 0 by lia. replace (Z.max (- 0) 0) with 0 by lia.
    change (10 ^ 0) with 1.
    assert (0 < 2 ^ e) by (apply Z.pow_pos_nonneg; lia).
    destruct (Z.le_gt_cases 2 e) as [H2|H2].
    + replace (Z.max (e - 2) 0) with (e - 2) by lia.
      replace (Z.max (- (e - 2)) 0) with 0 by lia.
      replace (2 ^ e) with (2 ^ (e - 2) * 4)
        by (change 4 with (2 ^ 2); rewrite <- Z.pow_add_r by lia; f_equal; lia).
      assert (0 < 2 ^ (e - 2)) by (apply Z.pow_pos_nonneg; lia).
      change (2 ^ 0) with 1.
      split; left; destruct Hg as [-> | ->]; nia.
    + replace (Z.max (e - 2) 0) with 0 by lia.
      replace (Z.max (- (e - 2)) 0) with (2 - e) by lia.
      change (2 ^ 0) with 1.
      assert (2 ^ e * 2 ^ (2 - e) = 4)
        by (rewrite <- Z.pow_add_r by lia; replace (e + (2 - e)) with 2 by lia; done).
      split; left; destruct Hg as [-> | ->]; nia.
Qed.

Lemma shortest_in_interval fuel n m e dp d k :
  0 < m -> Py.shortest fuel n m e dp = (d, k) -> in_interval m e d k.
Proof.
  intros Hm. revert n. induction fuel as [|fuel IH]; intros n; simpl.
  - by apply exact_decimal_in_interval.
  - destruct (Py.try_digits m e (dp - n)) as [d'|] eqn:Htry.
    + intros [= <- <-]. by apply try_digits_in_interval.
    + apply IH.
Qed.

Lemma in_interval_pos m e d k : 0 < m -> in_interval m e d k -> 0 < d.
Proof.
  intros Hm [Hlo _]. revert Hlo.
  pose proof (lower_gap_cases m e) as Hg.
  set (g := Py.lower_gap m e) in *. clearbody g.
  pose proof (scale_pos (e - 2) (- k)) as HT.
  pose proof (scale_pos (- (e - 2)) k) as HU.
  cbv zeta.
  set (T := 2 ^ Z.max (e - 2) 0 * 10 ^ Z.max (- k) 0) in *.
  set (U := 2 ^ Z.max (- (e - 2)) 0 * 10 ^ Z.max k 0) in *.
  intros Hlo. assert (0 < d * U) by (destruct Hg as [-> | ->]; nia). nia.
Qed.

(** Ten times as many units of a tenth of the size. *)
Lemma in_interval_times_ten m e d k :
  in_interval m e (10 * d) k <-> in_interval m e d (k + 1).
Proof.
  unfold in_interval.
  set (g := Py.lower_gap m e). clearbody g.
  set (P := 2 ^ Z.max (e - 2) 0). set (N := 2 ^ Z.max (- (e - 2)) 0).
  assert (HP : 0 < P) by (apply Z.pow_pos_nonneg; lia).
  assert (HN : 0 < N) by (apply Z.pow_pos_nonneg; lia).
  destruct (Z.le_gt_cases 0 k) as [Hk|Hk].
  - replace (Z.max (k + 1) 0) with (k + 1) by lia.
    replace (Z.max k 0) with k by lia.
    replace (Z.max (- k) 0) with 0 by lia.
    replace (Z.max (- (k + 1)) 0) with 0 by lia.
    rewrite Z.pow_add_r by lia. change (10 ^ 1) with 10. change (10 ^ 0) with 1.
    replace (10 * d * (N * 10 ^ k)) with (d * (N * (10 ^ k * 10))) by ring.
    done.
  - replace (Z.max (k + 1) 0) with 0 by lia.
    replace (Z.max k 0) with 0 by lia.
    replace (Z.max (- k) 0) with (- (k + 1) + 1) by lia.
    replace (Z.max (- (k + 1)) 0) with (- (k + 1)) by lia.
    rewrite Z.pow_add_r by lia. change (10 ^ 1) with 10. change (10 ^ 0) with 1.
    assert (0 < 10 ^ (- (k + 1))) by (apply Z.pow_pos_nonneg; lia).
    set (Q := 10 ^ (- (k + 1))) in *.
    replace ((4 * m - g) * (P * (Q * 10))) with (10 * ((4 * m - g) * (P * Q))) by ring.
    replace ((4 * m + 2) * (P * (Q * 10))) with (10 * ((4 * m + 2) * (P * Q))) by ring.
    replace (10 * d * (N * 1)) with (10 * (d * (N * 1))) by ring.
    set (A := (4 * m - g) * (P * Q)). set (B := (4 * m + 2) * (P * Q)).
    set (C := d * (N * 1)). clearbody A B C. split; intros [[?|[? ?]] [?|[? ?]]]; split;
      first [left; lia | right; split; [lia|done] ].
Qed.

Lemma strip_zeros_in_interval fuel m e d k d' k' :
  in_interval m e d k -> Py.strip_zeros fuel d k = (d', k') -> in_interval m e d' k'.
Proof.
  revert d k. induction fuel as [|fuel IH]; intros d k Hin; simpl.
  - by intros [= <- <-].
  - destruct (Z.eqb_spec (d mod 10) 0) as [Hmod|Hmod]; [|by intros [= <- <-]].
    apply IH. apply in_interval_times_ten.
    replace (10 * (d / 10)) with d; [done|].
    pose proof (Z.div_mod d 10). lia.
Qed.

Lemma digits2_pos_bounds m :
  2 ^ (Z.pos (digits2_pos m) - 1) <= Z.pos m < 2 ^ Z.pos (digits2_pos m).
Proof.
  induction m as [m IH|m IH|]; simpl digits2_pos; [| |done].
  - rewrite Pos2Z.inj_succ.
    replace (Z.succ (Z.pos (digits2_pos m)) - 1) with (Z.succ (Z.pos (digits2_pos m) - 1)) by lia.
    rewrite !Z.pow_succ_r by lia. lia.
  - rewrite Pos2Z.inj_succ.
    replace (Z.succ (Z.pos (digits2_pos m)) - 1) with (Z.succ (Z.pos (digits2_pos m) - 1)) by lia.
    rewrite !Z.pow_succ_r by lia. lia.
Qed.

Lemma valid_binary_bounds s m e :
  valid_binary 53 1024 (S754_finite s m e) = true -> binary64_bounds (Z.pos m) e.
Proof.
  unfold valid_binary, bounded, canonical_mantissa, fexp, emin.
  intros [Hc He]%andb_true_iff. apply Z.eqb_eq in Hc. apply Z.leb_le in He.
  pose proof (digits2_pos_bounds m) as [Hlo Hhi].
  set (n := Z.pos (digits2_pos m)) in *.
  assert (0 < n) by done. clearbody n.
  unfold binary64_bounds. split; [|split]; [|lia|].
  - split; [lia|]. eapply Z.lt_le_trans; [exact Hhi|].
    apply Z.pow_le_mono_r; lia.
  - destruct (Z.eq_dec e (-1074)) as [|Hne]; [by right|left].
    assert (n = 53) as -> by lia. exact Hlo.
Qed.

Lemma normalize_binary64 fuel m e :
  binary64_bounds m e -> Py.normalize fuel m e = (m, e).
Proof.
  intros (Hm & He & Hn). destruct fuel as [|fuel]; simpl; [done|].
  destruct (Z.ltb_spec m (2 ^ 52)), (Z.ltb_spec (-1074) e); simpl; try done. lia.
Qed.


Lemma lower_gap_one m e :
  Py.lower_gap m e = 1 -> m = 2 ^ 52 /\ -1074 < e.
Proof.
  unfold Py.lower_gap.
  destruct (Z.eqb_spec m (2 ^ 52)), (Z.ltb_spec (-1074) e); simpl; intros; lia.
Qed.

Lemma lower_gap_two m e :
  Py.lower_gap m e = 2 -> m <> 2 ^ 52 \/ e <= -1074.
Proof.
  unfold Py.lower_gap.
  destruct (Z.eqb_spec m (2 ^ 52)), (Z.ltb_spec (-1074) e); simpl; intros; lia.
Qed.

Lemma even_succ_false m : Z.even m = true -> Z.even (m + 1) = true -> False.
Proof.
  intros H1 H2. replace (m + 1) with (Z.succ m) in H2 by lia.
  rewrite Z.even_succ, <- Z.negb_even, H1 in H2. discriminate H2.
Qed.

(** What the order of two binary64 values says of the ends of their
    rounding intervals, in units of a quarter of the last place. *)
Lemma binary64_gap m e m' e' :
  binary64_bounds m e -> binary64_bounds m' e' ->
  e < e' \/ (e = e' /\ m < m') ->
  4 * m + 2 <= (4 * m' - Py.lower_gap m' e') * 2 ^ (e' - e) /\
  (Z.even m = true -> Z.even m' = true \/ e < e' ->
   4 * m + 2 < (4 * m' - Py.lower_gap m' e') * 2 ^ (e' - e)).
Proof.
  intros (Hm & He & Hn) (Hm' & He' & Hn') Hord.
  pose proof (lower_gap_cases m' e') as Hg.
  pose proof (lower_gap_one m' e') as Hg1.
  pose proof (lower_gap_two m' e') as Hg2.
  set (g := Py.lower_gap m' e') in *. clearbody g.
  change (2 ^ 53) with 9007199254740992 in *.
  change (2 ^ 52) with 4503599627370496 in *.
  destruct Hord as [Hlt|[-> Hlt]].
  - assert (HR : 2 <= 2 ^ (e' - e)).
    { change 2 with (2 ^ 1) at 1. apply Z.pow_le_mono_r; lia. }
    set (R := 2 ^ (e' - e)) in *. clearbody R.
    assert (Hg' : 18014398509481983 <= 4 * m' - g)
      by (destruct Hg as [Hg|Hg]; [destruct (Hg1 Hg)|destruct (Hg2 Hg)]; lia).
    assert (Hmul : (4 * m' - g) * 2 <= (4 * m' - g) * R)
      by (apply Z.mul_le_mono_nonneg_l; lia).
    split; [lia|]. intros Hev _.
    assert (m <> 9007199254740991) by (intros ->; discriminate Hev). lia.
  - rewrite Z.sub_diag. change (2 ^ 0) with 1. rewrite Z.mul_1_r.
    assert (g = 2) as -> by (destruct Hg as [Hg|Hg]; [destruct (Hg1 Hg)|]; lia).
    split; [lia|]. intros Hev [Hev'|?]; [|lia].
    assert (m' <> m + 1) by (intros ->; exact (even_succ_false m Hev Hev')). lia.
Qed.

(** The rounding intervals of two binary64 values do not meet: the lesser
    value's interval ends where the greater one's starts, at most, and a
    point they would share belongs to the one of even mantissa only. *)
Lemma in_interval_ordered m e m' e' d k :
  binary64_bounds m e -> binary64_bounds m' e' ->
  in_interval m e d k -> in_interval m' e' d k ->
  e < e' \/ (e = e' /\ m < m') -> False.
Proof.
  intros Hb Hb' [_ Hup] [Hlo _] Hord.
  destruct (binary64_gap m e m' e' Hb Hb' Hord) as [Hgap Hgap'].
  assert (Hee : e <= e') by lia.
  clear Hb Hb' Hord. cbv zeta in Hup, Hlo.
  set (g := Py.lower_gap m' e') in *. clearbody g.
  set (P10 := 10 ^ Z.max k 0) in *. set (N10 := 10 ^ Z.max (- k) 0) in *.
  assert (HP10 : 0 < P10) by (by apply pow_max_pos).
  assert (HN10 : 0 < N10) by (by apply pow_max_pos).
  assert (Hshift : 2 ^ Z.max (e' - 2) 0 * 2 ^ Z.max (- (e - 2)) 0
                   = 2 ^ (e' - e) * (2 ^ Z.max (e - 2) 0 * 2 ^ Z.max (- (e' - 2)) 0)).
  { rewrite <- !Z.pow_add_r by lia. f_equal. lia. }
  set (A := 2 ^ Z.max (e - 2) 0) in *. set (B := 2 ^ Z.max (- (e - 2)) 0) in *.
  set (A' := 2 ^ Z.max (e' - 2) 0) in *. set (B' := 2 ^ Z.max (- (e' - 2)) 0) in *.
  assert (HA : 0 < A) by (by apply pow_max_pos).
  assert (HB : 0 < B) by (by apply pow_max_pos).
  assert (HA' : 0 < A') by (by apply pow_max_pos).
  assert (HB' : 0 < B') by (by apply pow_max_pos).
  set (R := 2 ^ (e' - e)) in *.
  clearbody A B A' B' R P10 N10.
  set (Y := A * B' * N10).
  assert (HY : 0 < Y) by (unfold Y; repeat apply Z.mul_pos_pos; done).
  set (X := d * P10 * B * B').
  assert (HupX : d * (B * P10) * B' = X) by (unfold X; ring).
  assert (HupY : (4 * m + 2) * (A * N10) * B' = (4 * m + 2) * Y) by (unfold Y; ring).
  assert (HloX : d * (B' * P10) * B = X) by (unfold X; ring).
  assert (HloY : (4 * m' - g) * (A' * N10) * B = (4 * m' - g) * R * Y).
  { unfold Y. replace ((4 * m' - g) * (A' * N10) * B)
      with ((4 * m' - g) * N10 * (A' * B)) by ring. rewrite Hshift. ring. }
  clearbody X Y.
  assert (Hup' : X < (4 * m + 2) * Y \/ (X = (4 * m + 2) * Y /\ Z.even m = true)).
  { rewrite <- HupX, <- HupY. destruct Hup as [Hup|[Hup Hev]]; [left|right; split; [|done]].
    - by apply Z.mul_lt_mono_pos_r.
    - by rewrite Hup. }
  assert (Hlo' : (4 * m' - g) * R * Y < X \/
                 ((4 * m' - g) * R * Y = X /\ Z.even m' = true)).
  { rewrite <- HloX, <- HloY. destruct Hlo as [Hlo|[Hlo Hev]]; [left|right; split; [|done]].
    - by apply Z.mul_lt_mono_pos_r.
    - by rewrite Hlo. }
  clear Hup Hlo HupX HupY HloX HloY Hshift.
  set (L := (4 * m' - g) * R) in *. set (H := 4 * m + 2) in *. clearbody L H.
  assert (HLH : L * Y <= H * Y)
    by (destruct Hup' as [?|[? _]], Hlo' as [?|[? _]]; lia).
  apply Z.mul_le_mono_pos_r in HLH; [|done].
  assert (L = H) as -> by lia.
  destruct Hup' as [?|[Hx Hev]]; [destruct Hlo' as [?|[? _]]; lia|].
  destruct Hlo' as [?|[_ Hev']]; [lia|].
  specialize (Hgap' Hev). 
  destruct (Z.eq_dec e e') as [->|]; [|lia].
  specialize (Hgap' (or_introl Hev')). lia.
Qed.

Lemma in_interval_disjoint m e m' e' d k :
  binary64_bounds m e -> binary64_bounds m' e' ->
  in_interval m e d k -> in_interval m' e' d k ->
  m = m' /\ e = e'.
Proof.
  intros Hb Hb' Hin Hin'.
  destruct (Z.lt_trichotomy e e') as [Hlt|[->|Hlt]].
  - destruct (in_interval_ordered m e m' e' d k); auto.
  - destruct (Z.lt_trichotomy m m') as [Hm|[->|Hm]]; [|done|].
    + destruct (in_interval_ordered m e' m' e' d k); auto.
    + destruct (in_interval_ordered m' e' m e' d k); auto.
  - destruct (in_interval_ordered m' e' m e d k); auto.
Qed.

(** *** Reading digits *)

Lemma digits_acc_append s1 s2 acc :
  string_forall is_digit s1 = true ->
  digits_acc (s1 +:+ s2) acc = digits_acc s2 (digits_acc s1 acc).
Proof.
  revert acc. induction s1 as [|c s1 IH]; intros acc; [done|].
  rewrite append_cons. simpl. unfold is_digit.
  destruct (digit_value c) as [v|]; [|done]. simpl. apply IH.
Qed.

Lemma read_mantissa_digits s1 s2 pt D F :
  string_forall is_digit s1 = true ->
  read_mantissa (s1 +:+ s2) pt D F
  = read_mantissa s2 pt (digits_acc s1 D)
      (if pt then F + Z.of_nat (String.length s1) else F).
Proof.
  revert D F. induction s1 as [|c s1 IH]; intros D F.
  - intros _. rewrite append_nil. simpl. destruct pt; [f_equal; lia|done].
  - rewrite append_cons. simpl String.length. simpl. unfold is_digit.
    destruct (digit_value c) as [v|]; [|done]. simpl. intros Hs.
    rewrite (IH _ _ Hs). destruct pt; [f_equal; lia|done].
Qed.

Lemma read_mantissa_stops s pt D F : stops s -> read_mantissa s pt D F = (D, F, s).
Proof. destruct s as [|c r]; [done|]. simpl. by intros [-> ->]. Qed.

Lemma read_mantissa_whole a rest :
  string_forall is_digit a = true -> stops rest ->
  read_mantissa (a +:+ rest) false 0 0 = (digits_acc a 0, 0, rest).
Proof.
  intros Ha Hrest. rewrite (read_mantissa_digits _ _ _ _ _ Ha).
  by apply read_mantissa_stops.
Qed.

Lemma read_mantissa_point a b rest :
  string_forall is_digit a = true -> string_forall is_digit b = true ->
  stops rest ->
  read_mantissa (a +:+ "." +:+ b +:+ rest) false 0 0
  = (digits_acc (a +:+ b) 0, Z.of_nat (String.length b), rest).
Proof.
  intros Ha Hb Hrest. rewrite (read_mantissa_digits _ _ _ _ _ Ha).
  rewrite append_cons, append_nil.
  change (read_mantissa (String "." (b +:+ rest)) false (digits_acc a 0) 0)
    with (read_mantissa (b +:+ rest) true (digits_acc a 0) 0).
  rewrite (read_mantissa_digits _ _ _ _ _ Hb), (digits_acc_append _ _ _ Ha).
  rewrite Z.add_0_l. by apply read_mantissa_stops.
Qed.

(** *** The digits of an integer *)

Ltac eval_digit :=
  repeat match goal with
         | |- context [digit_value ?c] =>
             let v := eval vm_compute in (digit_value c) in
             change (digit_value c) with v
         end;
  cbv iota beta.

Lemma string_of_uint_digits u :
  string_forall is_digit (NilEmpty.string_of_uint u) = true.
Proof. induction u; simpl; by rewrite ?IHu. Qed.

Lemma digits_acc_uint u p :
  digits_acc (NilEmpty.string_of_uint u) (Z.pos p) = Z.pos (Pos.of_uint_acc u p).
Proof.
  revert p. induction u as [|u IH|u IH|u IH|u IH|u IH|u IH|u IH|u IH|u IH|u IH];
    intros p; [done|..];
    cbn [NilEmpty.string_of_uint digits_acc Pos.of_uint_acc];
    eval_digit; rewrite <- IH; f_equal; lia.
Qed.

Lemma digits_acc_uint_0 u :
  digits_acc (NilEmpty.string_of_uint u) 0 = Z.of_N (Pos.of_uint u).
Proof.
  induction u as [|u IH|u IH|u IH|u IH|u IH|u IH|u IH|u IH|u IH|u IH];
    [done|exact IH|..];
    cbn [NilEmpty.string_of_uint digits_acc Pos.of_uint];
    eval_digit; apply digits_acc_uint.
Qed.

Lemma int_repr_uint d :
  0 <= d ->
  exists u, u <> Decimal.Nil /\ Py.int_repr d = NilEmpty.string_of_uint u /\
            Z.of_N (Pos.of_uint u) = d.
Proof.
  intros Hd. unfold Py.int_repr.
  pose proof (DecimalZ.of_to d) as Hof. destruct (to_int_not_nil d) as [Hnil _].
  destruct (Z.to_int d) as [u|u] eqn:Hu.
  - exists u. split; [congruence|]. split; [|exact Hof].
    unfold NilZero.string_of_int, NilZero.string_of_uint.
    destruct u; [congruence|done..].
  - destruct d as [|p|p]; simpl in Hu; try discriminate Hu. lia.
Qed.

Lemma int_repr_digits d :
  0 <= d ->
  string_forall is_digit (Py.int_repr d) = true /\
  digits_acc (Py.int_repr d) 0 = d /\
  exists c r, Py.int_repr d = String c r.
Proof.
  intros (u & Hnil & -> & Hd)%int_repr_uint.
  split; [apply string_of_uint_digits|]. split.
  - by rewrite digits_acc_uint_0.
  - destruct u; [done|simpl; eauto..].
Qed.

Lemma digits_acc_zeros n acc :
  digits_acc (Py.str_mul "0" (Z.of_nat n)) acc = acc * 10 ^ Z.of_nat n.
Proof.
  revert acc. induction n as [|n IH]; intros acc.
  - simpl. lia.
  - rewrite str_mul_zero_S. cbn [digits_acc]. eval_digit.
    rewrite IH, Nat2Z.inj_succ, Z.pow_succ_r by lia. lia.
Qed.

(** *** Pieces of a string *)

Lemma substring_all s : String.substring 0 (String.length s) s = s.
Proof. induction s as [|c s IH]; simpl; [done|]. by rewrite IH. Qed.

Lemma substring_split n s :
  (n <= String.length s)%nat ->
  String.substring 0 n s +:+ String.substring n (String.length s - n) s = s.
Proof.
  revert n. induction s as [|c s IH]; intros n Hn; simpl in Hn.
  - by destruct n.
  - destruct n as [|n].
    + change (String.substring 0 0 (String c s)) with EmptyString.
      rewrite append_nil, Nat.sub_0_r. apply substring_all.
    + simpl. rewrite append_cons, IH by lia. done.
Qed.

Lemma length_substring_rest n s :
  (n <= String.length s)%nat ->
  String.length (String.substring n (String.length s - n) s) = (String.length s - n)%nat.
Proof.
  intros Hn. pose proof (f_equal String.length (substring_split n s Hn)) as H.
  rewrite length_append, length_substring_0 in H by done. lia.
Qed.

Lemma append_nil_r s : s +:+ EmptyString = s.
Proof. induction s as [|c s IH]; [done|]. by rewrite append_cons, IH. Qed.

Lemma read_mantissa_point_end a b :
  string_forall is_digit a = true -> string_forall is_digit b = true ->
  read_mantissa (a +:+ "." +:+ b) false 0 0
  = (digits_acc (a +:+ b) 0, Z.of_nat (String.length b), EmptyString).
Proof.
  intros Ha Hb. rewrite <- (append_nil_r b) at 1.
  by apply read_mantissa_point.
Qed.

(** *** The exponent *)

Lemma read_exponent_repr x : read_exponent ("e" +:+ Py.exponent_repr x) = x.
Proof.
  unfold Py.exponent_repr.
  destruct (int_repr_digits (Z.abs x)) as (Hdig & Hval & _); [lia|].
  assert (Hpad : digits_acc ((if Z.abs x <? 10 then "0" else EmptyString)
                             +:+ Py.int_repr (Z.abs x)) 0 = Z.abs x).
  { destruct (Z.abs x <? 10); [|by rewrite append_nil].
    rewrite append_cons, append_nil. cbn [digits_acc]. eval_digit. exact Hval. }
  destruct (Z.ltb_spec x 0); rewrite !append_cons, !append_nil;
    cbn [read_exponent]; simpl Ascii.eqb; cbv iota; rewrite Hpad; lia.
Qed.

Lemma stops_exponent s : stops ("e" +:+ s).
Proof. rewrite append_cons. done. Qed.

(** *** The four layouts of [format_short] *)

Lemma read_format_short d dp :
  0 < d ->
  exists j, 0 <= j /\
    read_decimal (Py.format_short (Py.int_repr d) dp)
    = (d * 10 ^ j, dp - Z.of_nat (String.length (Py.int_repr d)) - j).
Proof.
  intros Hd. destruct (int_repr_digits d) as (Hdig & Hval & c & r & Hds); [lia|].
  set (ds := Py.int_repr d) in *.
  assert (Hlen : (1 <= String.length ds)%nat) by (rewrite Hds; simpl; lia).
  unfold Py.format_short, read_decimal.
  destruct ((dp <=? -4) || (16 <? dp)) eqn:Hexp.
  - exists 0. split; [lia|]. rewrite Z.mul_1_r, Z.sub_0_r.
    destruct (Nat.ltb_spec 1 (String.length ds)) as [Hnd|Hnd].
    + rewrite append_assoc.
      rewrite read_mantissa_point;
        [|by apply string_forall_substring..|apply stops_exponent].
      rewrite (substring_split 1 ds Hlen), Hval, read_exponent_repr.
      rewrite length_substring_rest by lia. f_equal. lia.
    + assert (String.length ds = 1%nat) as Hone by lia.
      rewrite append_nil. rewrite <- Hone at 1. rewrite substring_all.
      rewrite read_mantissa_whole; [|done|apply stops_exponent].
      rewrite Hval, read_exponent_repr. f_equal. lia.
  - apply orb_false_iff in Hexp as [Hlo%Z.leb_gt Hhi%Z.ltb_ge].
    destruct (Z.leb_spec dp 0) as [Hdp|Hdp].
    + exists 0. split; [lia|]. rewrite Z.mul_1_r, Z.sub_0_r.
      change ("0." +:+ Py.str_mul "0" (- dp) +:+ ds)
        with ("0" +:+ "." +:+ Py.str_mul "0" (- dp) +:+ ds).
      rewrite <- (Z2Nat.id (- dp)) by lia.
      rewrite read_mantissa_point_end; [|done|].
      2:{ rewrite string_forall_append, Hdig, string_forall_str_mul_zero; done. }
      rewrite append_cons, append_nil. cbn [digits_acc]. eval_digit.
      rewrite digits_acc_append by (by apply string_forall_str_mul_zero).
      rewrite digits_acc_zeros. change (10 * 0 + 0) with 0. rewrite Z.mul_0_l, Hval.
      rewrite length_append, length_str_mul_zero. cbn [read_exponent]. f_equal. lia.
    + destruct (Z.leb_spec (Z.of_nat (String.length ds)) dp) as [Hint|Hfrac].
      * exists (dp - Z.of_nat (String.length ds) + 1). split; [lia|].
        change (ds +:+ Py.str_mul "0" (dp - Z.of_nat (String.length ds)) +:+ ".0")
          with (ds +:+ Py.str_mul "0" (dp - Z.of_nat (String.length ds)) +:+ "." +:+ "0").
        rewrite <- append_assoc.
        rewrite <- (Z2Nat.id (dp - Z.of_nat (String.length ds))) at 1 by lia.
        rewrite read_mantissa_point_end; [| |done].
        2:{ rewrite string_forall_append, Hdig, string_forall_str_mul_zero; done. }
        rewrite digits_acc_append.
        2:{ rewrite string_forall_append, Hdig, string_forall_str_mul_zero; done. }
        rewrite digits_acc_append by done. rewrite digits_acc_zeros, Hval.
        cbn [digits_acc]. eval_digit. cbn [read_exponent String.length].
        rewrite Z2Nat.id by lia. rewrite Z.pow_add_r by lia. f_equal; lia.
      * exists 0. split; [lia|]. rewrite Z.mul_1_r, Z.sub_0_r.
        assert (Hsplit : (Z.to_nat dp <= String.length ds)%nat) by lia.
        rewrite read_mantissa_point_end by (by apply string_forall_substring).
        rewrite (substring_split _ ds Hsplit), Hval.
        rewrite length_substring_rest by lia. cbn [read_exponent]. f_equal. lia.
Qed.

Lemma format_short_head d dp :
  0 < d ->
  exists c r, Py.format_short (Py.int_repr d) dp = String c r /\ is_digit c = true.
Proof.
  intros Hd. destruct (int_repr_digits d) as (Hdig & _ & c & r & Hds); [lia|].
  rewrite Hds in Hdig |- *. simpl in Hdig.
  apply andb_true_iff in Hdig as [Hc _].
  unfold Py.format_short. destruct ((dp <=? -4) || (16 <? dp)) eqn:Hexp.
  - simpl String.substring at 1. rewrite append_cons. by eexists _, _.
  - apply orb_false_iff in Hexp as [Hlo%Z.leb_gt Hhi%Z.ltb_ge].
    destruct (Z.leb_spec dp 0) as [Hdp|Hdp].
    + rewrite append_cons. by eexists _, _.
    + destruct (Z.leb_spec (Z.of_nat (String.length (String c r))) dp).
      * rewrite append_cons. by eexists _, _.
      * destruct (Z.to_nat dp) as [|n] eqn:Hn; [lia|].
        simpl String.substring at 1. rewrite append_cons. by eexists _, _.
Qed.

Lemma read_float_digit c r :
  is_digit c = true -> read_float (String c r) = (false, read_decimal (String c r)).
Proof.
  destruct c as [[] [] [] [] [] [] [] []]; intros H;
    first [discriminate H | reflexivity].
Qed.

Lemma read_float_signed s t c r :
  t = String c r -> is_digit c = true ->
  read_float (Py.sign_repr s +:+ t) = (s, read_decimal t).
Proof.
  intros -> Hc. destruct s; simpl Py.sign_repr.
  - rewrite append_cons, append_nil. reflexivity.
  - rewrite append_nil. by apply read_float_digit.
Qed.

(** *** From the float to its text and back *)

Lemma in_interval_scale m e d k j :
  0 <= j -> in_interval m e d k -> in_interval m e (d * 10 ^ j) (k - j).
Proof.
  intros Hj Hin. revert j Hj. apply natlike_ind.
  - by rewrite Z.mul_1_r, Z.sub_0_r.
  - intros j Hj IH. rewrite Z.pow_succ_r by done.
    replace (d * (10 * 10 ^ j)) with (10 * (d * 10 ^ j)) by ring.
    apply in_interval_times_ten. by replace (k - Z.succ j + 1) with (k - j) by lia.
Qed.

Lemma digits_decpt_spec m e :
  binary64_bounds m e ->
  exists d k, 0 < d /\ in_interval m e d k /\
    Py.digits_decpt m e
    = (Py.int_repr d, k + Z.of_nat (String.length (Py.int_repr d))).
Proof.
  intros Hb. pose proof Hb as ([Hm _] & _). unfold Py.digits_decpt.
  rewrite (normalize_binary64 _ _ _ Hb).
  destruct (Py.shortest 17 1 m e (Py.decpt_of m e)) as [d0 k0] eqn:Hs.
  destruct (Py.strip_zeros 17 d0 k0) as [d k] eqn:Hz.
  apply shortest_in_interval in Hs; [|done].
  apply (strip_zeros_in_interval _ _ _ _ _ _ _ Hs) in Hz.
  exists d, k. split; [by eapply in_interval_pos|]. done.
Qed.

(** What the text of a finite float reads as: its sign and a decimal
    inside its rounding interval. *)
Lemma float_repr_reads s m e :
  binary64_bounds (Z.pos m) e ->
  exists D K, 0 < D /\ in_interval (Z.pos m) e D K /\
    read_float (Py.float_repr (S754_finite s m e)) = (s, (D, K)).
Proof.
  intros (d & k & Hd & Hin & Hdd)%digits_decpt_spec.
  unfold Py.float_repr. rewrite Hdd.
  destruct (read_format_short d (k + Z.of_nat (String.length (Py.int_repr d))) Hd)
    as (j & Hj & Hread).
  destruct (format_short_head d (k + Z.of_nat (String.length (Py.int_repr d))) Hd)
    as (c & r & Hhead & Hc).
  exists (d * 10 ^ j), (k - j). split; [|split].
  - apply Z.mul_pos_pos; [done|]. by apply Z.pow_pos_nonneg.
  - by apply in_interval_scale.
  - rewrite (read_float_signed _ _ _ _ Hhead Hc), Hread. do 2 f_equal. lia.
Qed.

Lemma float_repr_finite_inj s m e s' m' e' :
  is_binary64 (S754_finite s m e) -> is_binary64 (S754_finite s' m' e') ->
  read_float (Py.float_repr (S754_finite s m e))
  = read_float (Py.float_repr (S754_finite s' m' e')) ->
  S754_finite s m e = S754_finite s' m' e'.
Proof.
  intros Hx%valid_binary_bounds Hy%valid_binary_bounds.
  destruct (float_repr_reads s m e Hx) as (D & K & _ & Hin & ->).
  destruct (float_repr_reads s' m' e' Hy) as (D' & K' & _ & Hin' & ->).
  intros [= -> -> ->].
  destruct (in_interval_disjoint _ _ _ _ _ _ Hx Hy Hin Hin') as [[= ->] ->]. done.
Qed.

(** The text of a finite float does not read as zero. *)
Lemma float_repr_finite_nonzero s m e t :
  is_binary64 (S754_finite s m e) ->
  fst (snd (read_float t)) = 0 ->
  Py.float_repr (S754_finite s m e) <> t.
Proof.
  intros Hx%valid_binary_bounds Ht Heq.
  destruct (float_repr_reads s m e Hx) as (D & K & HD & _ & Hread).
  rewrite Heq in Hread. rewrite Hread in Ht. simpl in Ht. lia.
Qed.

(** [repr] tells binary64 values apart. *)
Lemma float_repr_inj x y :
  is_binary64 x -> is_binary64 y -> Py.float_repr x = Py.float_repr y -> x = y.
Proof.
  intros Hx Hy Heq.
  destruct x as [s|s| |s m e], y as [s'|s'| |s' m' e'];
    try (destruct s, s'; first [reflexivity | discriminate Heq]);
    try (destruct s; first [reflexivity | discriminate Heq]);
    try (destruct s'; first [reflexivity | discriminate Heq]);
    try reflexivity.
  all: try (symmetry in Heq;
            apply (float_repr_finite_nonzero _ _ _ _ Hy) in Heq; [done|];
            by destruct s).
  all: try (apply (float_repr_finite_nonzero _ _ _ _ Hx) in Heq; [done|];
            by destruct s').
  - symmetry in Heq. by apply (float_repr_finite_nonzero _ _ _ _ Hy) in Heq.
  - by apply (float_repr_finite_nonzero _ _ _ _ Hx) in Heq.
  - apply float_repr_finite_inj; [done..|]. by rewrite Heq.
Qed.

Lemma floatstr_inj x y :
  is_binary64 x -> is_binary64 y ->
  JsonDumps.floatstr x = JsonDumps.floatstr y -> x = y.
Proof.
  intros Hx Hy Heq.
  destruct x as [s|s| |s m e] eqn:Ex, y as [s'|s'| |s' m' e'] eqn:Ey;
    try (by apply float_repr_inj).
  all: try (destruct s, s'; first [reflexivity | discriminate Heq]).
  all: try (destruct s; first [reflexivity | discriminate Heq]).
  all: try (destruct s'; first [reflexivity | discriminate Heq]).
  all: try reflexivity.
  all: try (symmetry in Heq; simpl JsonDumps.floatstr in Heq;
            apply (float_repr_finite_nonzero _ _ _ _ Hy) in Heq; [done|];
            by destruct s).
  all: try (simpl JsonDumps.floatstr in Heq;
            apply (float_repr_finite_nonzero _ _ _ _ Hx) in Heq; [done|];
            by destruct s').
  - symmetry in Heq. by apply (float_repr_finite_nonzero _ _ _ _ Hy) in Heq.
  - by apply (float_repr_finite_nonzero _ _ _ _ Hx) in Heq.
Qed.

Lemma printed_apart_binary64 xs ys :
  Forall is_binary64 xs -> Forall is_binary64 ys -> printed_apart xs ys.
Proof.
  intros Hxs Hys x y Hx Hy. apply floatstr_inj.
  - by eapply Forall_forall in Hxs.
  - by eapply Forall_forall in Hys.
Qed.

(** ** The text that is hashed *)

Lemma number_list l :
  forallb (fun x => match x with
                    | S754_nan => false
                    | _ => valid_binary 53 1024 x
                    end) l = true ->
  Forall is_number l.
Proof.
  rewrite forallb_forall, Forall_forall. intros H x Hx.
  specialize (H x (proj1 (list_elem_of_In _ _) Hx)).
  destruct x; try discriminate H; split; done.
Qed.

Lemma printed_apart_numbers xs ys :
  Forall is_number xs -> Forall is_number ys -> printed_apart xs ys.
Proof.
  intros Hxs Hys. apply printed_apart_binary64.
  - eapply Forall_impl; [exact Hxs|]. by intros x [? _].
  - eapply Forall_impl; [exact Hys|]. by intros x [? _].
Qed.

(** X18.  The JSON text that [calculate_hash] hashes determines the five
    attributes it is made of, for the blocks of the model: their strings
    have code points below 256, and their floats are taken to be binary64
    values other than NaN.  Two such blocks whose texts are the same have
    the same index, timestamp, transactions, previous hash and nonce:
    nothing of a name, an amount or a timestamp is lost or confused with
    its neighbours on the way to the digest. *)
Theorem block_text_determines_block b b' :
  Forall is_number (floats_of_block b) ->
  Forall is_number (floats_of_block b') ->
  Block.block_string b = Block.block_string b' ->
  Block.index b = Block.index b' /\
  Block.timestamp b = Block.timestamp b' /\
  Block.transactions b = Block.transactions b' /\
  Block.previous_hash b = Block.previous_hash b' /\
  Block.nonce b = Block.nonce b'.
Proof.
  intros Hb Hb' Htext.
  assert (Hfl : printed_apart (floats_of_block b) (floats_of_block b'))
    by (by apply printed_apart_numbers).
  exact (block_string_inj b b' Hfl Htext).
Qed.

Lemma block_text_determines_block_witness :
  Forall is_number (floats_of_block demo_block1) /\
  Block.set_hash demo_block1 zeros64 <> demo_block1 /\
  Block.block_string demo_block1 = Block.block_string (Block.set_hash demo_block1 zeros64) /\
  Block.transactions demo_block1
  = Block.transactions (Block.set_hash demo_block1 zeros64).
Proof.
  assert (Hfl : Forall is_number (floats_of_block demo_block1))
    by (apply number_list; vm_compute; reflexivity).
  assert (Htext : Block.block_string demo_block1
                  = Block.block_string (Block.set_hash demo_block1 zeros64))
    by reflexivity.
  split; [exact Hfl|]. split; [intros H; discriminate H|]. split; [exact Htext|].
  exact (proj1 (proj2 (proj2
           (block_text_determines_block demo_block1 (Block.set_hash demo_block1 zeros64)
              Hfl Hfl Htext)))).
Defined.

(** X19.  For the blocks of the model (strings of code points below 256)
    whose floats are binary64 values other than NaN, a change of one
    attribute is a change of the text that is hashed, so that tampering
    is caught unless SHA-256 collides: on a chain that passed validation,
    assign a different value to one attribute of a block other than the
    genesis block; the JSON text of the block is then another text, and
    unless its digest is the digest of the old text, [is_chain_valid]
    returns [False] and reports a hash mismatch at that block. *)
Theorem tamper_detected_in_text self i b b' w w' :
  IndianBlockchain.is_chain_valid self w = Returns true w' ->
  (1 <= i)%nat ->
  IndianBlockchain.chain self !! i = Some b ->
  tampered b b' ->
  Forall is_number (floats_of_block b) ->
  Forall is_number (floats_of_block b') ->
  (Block.block_string b' <> Block.block_string b ->
   Block.calculate_hash b' <> Block.calculate_hash b) ->
  (Block.hash b' = Block.hash b -> Block.block_string b' <> Block.block_string b) /\
  IndianBlockchain.is_chain_valid
    (IndianBlockchain.Make (<[i:=b']> (IndianBlockchain.chain self))
       (IndianBlockchain.difficulty self)
       (IndianBlockchain.pending_transactions self)) w
  = Returns false (say (InvalidHash i) w).
Proof.
  intros Hvalid Hi Hb Ht Hfl Hfl' Hcollision.
  assert (Htext : Block.hash b' = Block.hash b ->
                  Block.block_string b' <> Block.block_string b).
  { intros Hh. apply tampered_text; [done..|]. by apply printed_apart_numbers. }
  split; [exact Htext|].
  pose proof (is_chain_valid_all_ok _ _ _ Hvalid) as Hall.
  assert (Hlen : (i < length (IndianBlockchain.chain self))%nat)
    by (by eapply lookup_lt_Some).
  destruct (Hall i) as (cur & prev & Hcur & Hprev & Hok); [lia|].
  assert (cur = b) as -> by congruence.
  assert (Hbad : hash_ok b' = false).
  { apply (tampered_hash_mismatch b); [|done|by auto].
    unfold block_ok in Hok. by apply andb_true_iff in Hok as [[? ?]%andb_true_iff ?]. }
  rewrite (is_chain_valid_false _ w i b' prev); simpl.
  - unfold failure_message. by rewrite Hbad.
  - done.
  - by apply list_lookup_insert_eq.
  - rewrite list_lookup_insert_ne by lia. done.
  - intros j Hj. apply ok_at_insert_before; [lia|]. apply Hall. lia.
  - unfold block_ok. by rewrite Hbad.
Qed.

Lemma tamper_detected_in_text_witness :
  tampered demo_block1 demo_block1_tampered /\
  Forall is_number (floats_of_block demo_block1_tampered) /\
  Block.block_string demo_block1_tampered <> Block.block_string demo_block1 /\
  IndianBlockchain.is_chain_valid demo_three_tampered (snd demo_three)
  = Returns false (say (InvalidHash 1) (snd demo_three)).
Proof.
  assert (Hvalid : IndianBlockchain.is_chain_valid (fst demo_three) (snd demo_three)
                   = Returns true (say BlockchainValid (snd demo_three)))
    by (vm_compute; reflexivity).
  assert (Ht : tampered demo_block1 demo_block1_tampered).
  { apply tamper_transactions. intros H. vm_compute in H. discriminate H. }
  assert (Hfl : Forall is_number (floats_of_block demo_block1))
    by (apply number_list; vm_compute; reflexivity).
  assert (Hfl' : Forall is_number (floats_of_block demo_block1_tampered))
    by (apply number_list; vm_compute; reflexivity).
  assert (Hd : Block.calculate_hash demo_block1_tampered
               <> Block.calculate_hash demo_block1).
  { intros H%String.eqb_eq. vm_compute in H. discriminate H. }
  destruct (tamper_detected_in_text (fst demo_three) 1 demo_block1
              demo_block1_tampered (snd demo_three) _ Hvalid (le_n 1) eq_refl
              Ht Hfl Hfl' (fun _ => Hd)) as [Htext Hrun].
  split; [exact Ht|]. split; [exact Hfl'|]. split; [exact (Htext eq_refl)|].
  exact Hrun.
Defined.
